(** * Schema Builder: the field tree and the JSON Schema generator

    A shallow embedding of [client/pages/Index.tsx]: the [SchemaField]
    tree, the handlers of the recursive [FieldEditor] component, the
    handlers of the [Index] page, and [generateJsonSchema] with its local
    [convertField]. *)

From stdpp Require Import base option list strings pretty sorting.

Open Scope string_scope.

(** ** The field tree *)

(** [export type FieldType = "string" | "number" | "boolean" | "object" | "array"] *)
Inductive FieldType : Type :=
  | TString
  | TNumber
  | TBoolean
  | TObject
  | TArray.

(** The string a [FieldType] is at run time. *)
Definition type_string (t : FieldType) : string :=
  match t with
  | TString => "string"
  | TNumber => "number"
  | TBoolean => "boolean"
  | TObject => "object"
  | TArray => "array"
  end.

(** [export interface SchemaField]: the three optional members are
    [None] when the key is absent from the object. *)
#[warnings="-register-all"]
Inductive SchemaField : Type :=
  mkSchemaField {
    id : string;
    name : string;
    type : FieldType;
    required : bool;
    description : option string;
    properties : option (list SchemaField);
    items : option SchemaField
  }.

(** Structural induction that also reaches the children kept under
    [properties] and [items]. *)
Section SchemaField_induction.
Variable P : SchemaField -> Prop.
Hypothesis step : forall i n t r d ps it,
  match ps with Some l => Forall P l | None => True end ->
  match it with Some f => P f | None => True end ->
  P (mkSchemaField i n t r d ps it).

Fixpoint SchemaField_tree_ind (f : SchemaField) : P f :=
  match f with
  | mkSchemaField i n t r d ps it =>
      step i n t r d ps it
        (match ps as o
               return match o with Some l => Forall P l | None => True end with
         | Some l0 =>
             (fix all (l : list SchemaField) : Forall P l :=
                match l with
                | [] => @List.Forall_nil _ P
                | x :: l' => @List.Forall_cons _ P x l' (SchemaField_tree_ind x) (all l')
                end) l0
         | None => I
         end)
        (match it as o
               return match o with Some g => P g | None => True end with
         | Some g0 => SchemaField_tree_ind g0
         | None => I
         end)
  end.
End SchemaField_induction.

(** ** JSON values

    The values [generateJsonSchema] builds: strings, arrays and plain
    objects.  An object is the list of its own properties in the order
    in which JavaScript enumerates them, which is the order
    [JSON.stringify] writes them in: the keys that are array indices
    first, by ascending value, then the other keys in creation order;
    there is at most one entry per key.  The prototype of an object is
    not a property and is not kept. *)
#[warnings="-register-all"]
Inductive json : Type :=
  | JString (s : string)
  | JArray (l : list json)
  | JObject (o : list (string * json)).

(** [o[k]] read as an own property. *)
Fixpoint obj_get (k : string) (o : list (string * json)) : option json :=
  match o with
  | [] => None
  | (k', v) :: o' => if String.eqb k k' then Some v else obj_get k o'
  end.

(** The value of a key written with decimal digits only. *)
Definition digit_value (c : Ascii.ascii) : option N :=
  let n := Ascii.N_of_ascii c in
  if ((48 <=? n) && (n <=? 57))%N then Some (n - 48)%N else None.

Fixpoint digits_value (acc : N) (k : string) : option N :=
  match k with
  | EmptyString => Some acc
  | String c k' =>
      match digit_value c with
      | Some d => digits_value (acc * 10 + d)%N k'
      | None => None
      end
  end.

(** A key is an array index when it is the decimal writing of an integer
    from 0 to 2^32 - 2: digits only, and equal to what that integer
    prints as (so no leading zero). *)
Definition array_index (k : string) : option N :=
  match k with
  | EmptyString => None
  | String _ _ =>
      match digits_value 0 k with
      | Some n =>
          if (n <? 4294967295)%N && String.eqb (pretty n) k then Some n else None
      | None => None
      end
  end.

(** [o[k] = v] for a key that is no array index: an existing key keeps
    its position and takes the new value, a new key is added after the
    others. *)
Fixpoint obj_put (k : string) (v : json) (o : list (string * json))
  : list (string * json) :=
  match o with
  | [] => [(k, v)]
  | (k', v') :: o' =>
      if String.eqb k k' then (k', v) :: o' else (k', v') :: obj_put k v o'
  end.

(** [o[k] = v] for the array index [k] of value [n]: an existing key
    takes the new value, a new key goes after the array indices below
    it and before everything else. *)
Fixpoint obj_put_index (n : N) (k : string) (v : json) (o : list (string * json))
  : list (string * json) :=
  match o with
  | [] => [(k, v)]
  | (k', v') :: o' =>
      if String.eqb k k' then (k', v) :: o'
      else
        match array_index k' with
        | Some m =>
            if (m <? n)%N then (k', v') :: obj_put_index n k v o'
            else (k, v) :: o
        | None => (k, v) :: o
        end
  end.

(** [o[k] = v] on an object made by an object literal.  The key
    [__proto__] is not stored: the assignment reaches the setter that
    [Object.prototype] has for it, which changes the prototype of [o]
    (or does nothing, for a value that is no object) and leaves the own
    properties as they are. *)
Definition obj_set (k : string) (v : json) (o : list (string * json))
  : list (string * json) :=
  if String.eqb k "__proto__" then o
  else
    match array_index k with
    | Some n => obj_put_index n k v o
    | None => obj_put k v o
    end.

(** [delete o[k]] *)
Fixpoint obj_delete (k : string) (o : list (string * json))
  : list (string * json) :=
  match o with
  | [] => []
  | (k', v') :: o' =>
      if String.eqb k k' then o' else (k', v') :: obj_delete k o'
  end.

(** [Object.keys(o)] *)
Definition obj_keys (o : list (string * json)) : list string := map fst o.

(** Truthiness of an optional string: [undefined] and [""] are falsy. *)
Definition truthy (d : option string) : bool :=
  match d with
  | Some s => negb (String.eqb s "")
  | None => false
  end.

(** ** The generator *)

(** The two containers a [forEach] of the generator fills: the
    [properties] object and the [required] array. *)
Definition collected : Type := list (string * json) * list string.

(** One iteration of
    [(prop) => { props[prop.name] = convert(prop);
                 if (prop.required) required.push(prop.name) }]. *)
Definition collect (convert : SchemaField -> json)
    (acc : collected) (prop : SchemaField) : collected :=
  (obj_set (name prop) (convert prop) (fst acc),
   if required prop then (snd acc ++ [name prop])%list else snd acc).

(** [convertField], local to [generateJsonSchema].  [baseSchema] gets
    its keys in the order of the assignments: [type], [description],
    [properties], [required], [items]. *)
Fixpoint convertField (field : SchemaField) : json :=
  match field with
  | mkSchemaField _ _ ty _ descr props its =>
      let baseSchema := [("type", JString (type_string ty))] in
      let baseSchema :=
        if truthy descr
        then obj_set "description" (JString (default "" descr)) baseSchema
        else baseSchema in
      let baseSchema :=
        match ty, props with
        | TObject, Some ps =>
            let acc := fold_left (collect convertField) ps ([], []) in
            let baseSchema := obj_set "properties" (JObject (fst acc)) baseSchema in
            if (0 <? length (snd acc))%nat
            then obj_set "required" (JArray (map JString (snd acc))) baseSchema
            else baseSchema
        | _, _ => baseSchema
        end in
      let baseSchema :=
        match ty, its with
        | TArray, Some it => obj_set "items" (convertField it) baseSchema
        | _, _ => baseSchema
        end in
      JObject baseSchema
  end.

(** [generateJsonSchema], on the [schema] state of the page.  The
    object under [properties] and the array under [required] are filled
    in place by the [forEach]; here they are stored once filled, which
    leaves each key at the position the literal gave it. *)
Definition generateJsonSchema (schema : list SchemaField) : json :=
  let jsonSchema :=
    [("type", JString "object"); ("properties", JObject []); ("required", JArray [])] in
  let acc := fold_left (collect convertField) schema ([], []) in
  let jsonSchema := obj_set "properties" (JObject (fst acc)) jsonSchema in
  let jsonSchema := obj_set "required" (JArray (map JString (snd acc))) jsonSchema in
  let jsonSchema :=
    if (length (snd acc) =? 0)%nat then obj_delete "required" jsonSchema else jsonSchema in
  JObject jsonSchema.

(** ** JavaScript arrays as lists *)

(** [l.filter((x, i) => p x i)], the callback reading element and index. *)
Fixpoint filter_from {A} (p : A -> nat -> bool) (i : nat) (l : list A) : list A :=
  match l with
  | [] => []
  | x :: l' =>
      if p x i then x :: filter_from p (S i) l' else filter_from p (S i) l'
  end.

Definition array_filter {A} (p : A -> nat -> bool) (l : list A) : list A :=
  filter_from p 0 l.

(** [l[i] = x] on an array without holes: a slot is replaced, the slot one
    past the end is appended; writing further out would leave holes, which
    a [list] cannot hold, and is [None]. *)
Definition array_set {A} (i : nat) (x : A) (l : list A) : option (list A) :=
  if (i <? length l)%nat then Some (<[i:=x]> l)
  else if (i =? length l)%nat then Some (l ++ [x])%list
  else None.

(** ** Updates *)

(** [Partial<SchemaField>]: a member is [None] when the update object
    does not have the key. *)
Record Updates : Type :=
  mkUpdates {
    u_id : option string;
    u_name : option string;
    u_type : option FieldType;
    u_required : option bool;
    u_description : option string;
    u_properties : option (list SchemaField);
    u_items : option SchemaField
  }.

(** [{ ...field, ...updates }]: a key of [updates] wins, the other keys
    are those of [field]. *)
Definition spread (field : SchemaField) (updates : Updates) : SchemaField :=
  {| id := default (id field) (u_id updates);
     name := default (name field) (u_name updates);
     type := default (type field) (u_type updates);
     required := default (required field) (u_required updates);
     description :=
       match u_description updates with
       | Some d => Some d
       | None => description field
       end;
     properties :=
       match u_properties updates with
       | Some ps => Some ps
       | None => properties field
       end;
     items :=
       match u_items updates with
       | Some it => Some it
       | None => items field
       end |}.

(** [`field_${Date.now()}_${Math.random().toString(36).substr(2, 9)}`]:
    [now] is the clock reading and [rnd] the random suffix. *)
Definition field_id (now : N) (rnd : string) : string :=
  "field_" +:+ pretty now +:+ "_" +:+ rnd.

(** The object literal of [addProperty] and of [addField]. *)
Definition new_field (now : N) (rnd : string) : SchemaField :=
  {| id := field_id now rnd;
     name := "newField";
     type := TString;
     required := false;
     description := None;
     properties := None;
     items := None |}.

(** What a [FieldEditor] does to its parent: it calls [onUpdate] with a
    field, calls [onDelete], or calls neither. *)
Inductive Callback : Type :=
  | OnUpdate (field : SchemaField)
  | OnDelete
  | Idle.

(** The user events a [FieldEditor] can receive, on its own controls or
    on those of an editor nested below it.  [now] and [rnd] are what
    [Date.now()] and [Math.random()] return while the event is handled. *)
Inductive Event : Type :=
  | NameChange (value : string)
  | TypeChange (value : FieldType) (now : N)
  | RequiredClick
  | DeleteClick
  | DescriptionChange (value : string)
  | AddPropertyClick (now : N) (rnd : string)
  | InProperty (index : nat) (e : Event)
  | InItems (e : Event).

Module FieldEditor.

(** [updateField(updates)]: the field handed to [onUpdate]. *)
Definition updateField (field : SchemaField) (updates : Updates) : SchemaField :=
  spread field updates.

Definition addProperty (field : SchemaField) (now : N) (rnd : string)
  : SchemaField :=
  let newProperty := new_field now rnd in
  updateField field
    {| u_id := None; u_name := None; u_type := None; u_required := None;
       u_description := None;
       u_properties := Some (default [] (properties field) ++ [newProperty])%list;
       u_items := None |}.

Definition updateProperty (field : SchemaField) (index : nat)
    (updatedProperty : SchemaField) : option SchemaField :=
  newProperties ← array_set index updatedProperty (default [] (properties field));
  Some (updateField field
    {| u_id := None; u_name := None; u_type := None; u_required := None;
       u_description := None;
       u_properties := Some newProperties;
       u_items := None |}).

Definition deleteProperty (field : SchemaField) (index : nat) : SchemaField :=
  let newProperties :=
    match properties field with
    | Some ps => array_filter (fun _ i => negb (i =? index)%nat) ps
    | None => []
    end in
  updateField field
    {| u_id := None; u_name := None; u_type := None; u_required := None;
       u_description := None;
       u_properties := Some newProperties;
       u_items := None |}.

Definition updateArrayItems (field updatedItems : SchemaField) : SchemaField :=
  updateField field
    {| u_id := None; u_name := None; u_type := None; u_required := None;
       u_description := None; u_properties := None;
       u_items := Some updatedItems |}.

(** The item an array gets when it has none: [`items_${Date.now()}`],
    ["item"], ["string"], [false]. *)
Definition default_items (now : N) : SchemaField :=
  {| id := "items_" +:+ pretty now;
     name := "item";
     type := TString;
     required := false;
     description := None;
     properties := None;
     items := None |}.

(** [onValueChange] of the type select.  An array, even an empty one,
    and an object are truthy, so [!field.properties] and [!field.items]
    test for the absent key. *)
Definition onValueChange (field : SchemaField) (value : FieldType) (now : N)
  : SchemaField :=
  let updates :=
    {| u_id := None; u_name := None; u_type := Some value; u_required := None;
       u_description := None; u_properties := None; u_items := None |} in
  let updates :=
    match value, properties field with
    | TObject, None =>
        {| u_id := u_id updates; u_name := u_name updates;
           u_type := u_type updates; u_required := u_required updates;
           u_description := u_description updates;
           u_properties := Some [];
           u_items := u_items updates |}
    | _, _ => updates
    end in
  let updates :=
    match value, items field with
    | TArray, None =>
        {| u_id := u_id updates; u_name := u_name updates;
           u_type := u_type updates; u_required := u_required updates;
           u_description := u_description updates;
           u_properties := u_properties updates;
           u_items := Some (default_items now) |}
    | _, _ => updates
    end in
  updateField field updates.

(** The component as a function from the event to the callback.  The
    nested editors are the ones the JSX renders: one per entry of
    [properties] under a field of type ["object"], with
    [updateProperty(index, _)] and [deleteProperty(index)] as callbacks,
    and one for [items] under a field of type ["array"], with
    [updateArrayItems] and the empty function.  The "Add Property"
    button exists under a field of type ["object"] only.  The editor is
    taken with [isExpanded] true, the state in which all of these are
    rendered.  An event for a control that is not rendered calls nothing.
    The result is [None] only where [updateProperty] is. *)
Fixpoint handle (field : SchemaField) (e : Event) : option Callback :=
  match e with
  | NameChange value =>
      Some (OnUpdate (updateField field
        {| u_id := None; u_name := Some value; u_type := None;
           u_required := None; u_description := None;
           u_properties := None; u_items := None |}))
  | TypeChange value now =>
      Some (OnUpdate (onValueChange field value now))
  | RequiredClick =>
      Some (OnUpdate (updateField field
        {| u_id := None; u_name := None; u_type := None;
           u_required := Some (negb (required field));
           u_description := None;
           u_properties := None; u_items := None |}))
  | DeleteClick => Some OnDelete
  | DescriptionChange value =>
      Some (OnUpdate (updateField field
        {| u_id := None; u_name := None; u_type := None;
           u_required := None; u_description := Some value;
           u_properties := None; u_items := None |}))
  | AddPropertyClick now rnd =>
      match type field with
      | TObject => Some (OnUpdate (addProperty field now rnd))
      | _ => Some Idle
      end
  | InProperty index e' =>
      match type field, properties field with
      | TObject, Some ps =>
          match ps !! index with
          | Some property =>
              c ← handle property e';
              match c with
              | OnUpdate updatedProperty =>
                  OnUpdate <$> updateProperty field index updatedProperty
              | OnDelete => Some (OnUpdate (deleteProperty field index))
              | Idle => Some Idle
              end
          | None => Some Idle
          end
      | _, _ => Some Idle
      end
  | InItems e' =>
      match type field, items field with
      | TArray, Some it =>
          c ← handle it e';
          match c with
          | OnUpdate updatedItems =>
              Some (OnUpdate (updateArrayItems field updatedItems))
          | OnDelete => Some Idle
          | Idle => Some Idle
          end
      | _, _ => Some Idle
      end
  end.

End FieldEditor.

(** The events of the page: the "Add Field" button, or an event inside
    the editor of the root field at [index]. *)
Inductive PageEvent : Type :=
  | AddFieldClick (now : N) (rnd : string)
  | InField (index : nat) (e : Event).

Module Index.

(** The initial [schema] state. *)
Definition initial : list SchemaField :=
  [ {| id := "field_1"; name := "name"; type := TString; required := true;
       description := Some "The name of the user";
       properties := None; items := None |};
    {| id := "field_2"; name := "age"; type := TNumber; required := false;
       description := Some "The age of the user";
       properties := None; items := None |} ].

(** Each handler returns the argument of its [setSchema] call. *)
Definition addField (schema : list SchemaField) (now : N) (rnd : string)
  : list SchemaField :=
  let newField := new_field now rnd in
  (schema ++ [newField])%list.

Definition updateField (schema : list SchemaField) (index : nat)
    (updatedField : SchemaField) : option (list SchemaField) :=
  array_set index updatedField schema.

Definition deleteField (schema : list SchemaField) (index : nat)
  : list SchemaField :=
  array_filter (fun _ i => negb (i =? index)%nat) schema.

(** The next [schema] state after an event; the state stays as it is
    when [setSchema] is not called. *)
Definition handle (schema : list SchemaField) (e : PageEvent)
  : option (list SchemaField) :=
  match e with
  | AddFieldClick now rnd => Some (addField schema now rnd)
  | InField index e' =>
      match schema !! index with
      | Some field =>
          c ← FieldEditor.handle field e';
          match c with
          | OnUpdate updatedField => updateField schema index updatedField
          | OnDelete => Some (deleteField schema index)
          | Idle => Some schema
          end
      | None => Some schema
      end
  end.

(** A session: the events handled one after the other. *)
Fixpoint run (schema : list SchemaField) (es : list PageEvent)
  : option (list SchemaField) :=
  match es with
  | [] => Some schema
  | e :: es' => schema' ← handle schema e; run schema' es'
  end.

End Index.

(** ** Notions used to state the properties *)

(** [j[k]] on a value that may be an object. *)
Definition member (k : string) (j : json) : option json :=
  match j with
  | JObject o => obj_get k o
  | _ => None
  end.

(** The keys of a value that may be an object. *)
Definition keys_of (j : json) : list string :=
  match j with
  | JObject o => obj_keys o
  | _ => []
  end.

(** Every key that occurs in a value, at any depth. *)
Fixpoint all_keys (j : json) : list string :=
  match j with
  | JString _ => []
  | JArray l => flat_map all_keys l
  | JObject o =>
      flat_map (fun kv => match kv with (k, v) => k :: all_keys v end) o
  end.

(** The nodes of the tree below a field, the field included; children
    kept under [properties] or [items] count whatever the type is. *)
Fixpoint nodes (f : SchemaField) : list SchemaField :=
  match f with
  | mkSchemaField _ _ _ _ _ ps it =>
      f :: (match ps with Some l => flat_map nodes l | None => [] end)
        ++ (match it with Some g => nodes g | None => [] end)
  end.

(** A property holds of every node of the tree under the root sequence. *)
Definition every_node (P : SchemaField -> Prop) (schema : list SchemaField) : Prop :=
  Forall P (flat_map nodes schema).

(** [properties] is there exactly for an object, [items] exactly for an
    array. *)
Definition shape_exact (f : SchemaField) : Prop :=
  (is_Some (properties f) <-> type f = TObject) /\
  (is_Some (items f) <-> type f = TArray).

(** An object has [properties], an array has [items]. *)
Definition shape_kept (f : SchemaField) : Prop :=
  (type f = TObject -> is_Some (properties f)) /\
  (type f = TArray -> is_Some (items f)).

(** The same tree with every [id] blanked. *)
Fixpoint erase_ids (f : SchemaField) : SchemaField :=
  match f with
  | mkSchemaField _ n t r d ps it =>
      mkSchemaField "" n t r d
        (match ps with Some l => Some (map erase_ids l) | None => None end)
        (match it with Some g => Some (erase_ids g) | None => None end)
  end.

(** The names [convertField] writes as keys of a [properties] object:
    those of the children of an object, and so on below them and below
    the item of an array. *)
Fixpoint property_names (f : SchemaField) : list string :=
  match f with
  | mkSchemaField _ _ t _ _ ps it =>
      (match t, ps with
       | TObject, Some l => flat_map (fun c => name c :: property_names c) l
       | _, _ => []
       end)
      ++ (match t, it with
          | TArray, Some g => property_names g
          | _, _ => []
          end)
  end.

(** The same for [generateJsonSchema]: the names of the root fields and
    the names below them. *)
Definition schema_names (schema : list SchemaField) : list string :=
  flat_map (fun c => name c :: property_names c) schema.

(** The top-level [properties] object binds the name of every root field
    to the schema compiled from that very field. *)
Definition binds_every_root (schema : list SchemaField) : Prop :=
  exists props,
    member "properties" (generateJsonSchema schema) = Some (JObject props) /\
    forall f, f ∈ schema -> obj_get (name f) props = Some (convertField f).

(** The keys of the top-level [properties] object are the names of the
    root fields, in the order of the root sequence. *)
Definition keys_in_root_order (schema : list SchemaField) : Prop :=
  exists props,
    member "properties" (generateJsonSchema schema) = Some (JObject props) /\
    obj_keys props = map name schema.

(** The names that are stored as ordinary keys: not [__proto__] and no
    array index. *)
Definition plain_name (k : string) : bool :=
  negb (String.eqb k "__proto__") &&
  match array_index k with
  | None => true
  | Some _ => false
  end.

(** One array index is below another. *)
Definition index_lt (a b : string) : Prop :=
  match array_index a, array_index b with
  | Some m, Some n => (m < n)%N
  | _, _ => False
  end.

(** A list of names without the repetitions: every name where it comes
    first. *)
Fixpoint first_seen (l : list string) : list string :=
  match l with
  | [] => []
  | k :: l' => k :: List.filter (fun k' => negb (String.eqb k' k)) (first_seen l')
  end.

(** An event addressed to the editor reached from a field by [path]:
    [Some index] steps into a property, [None] into the array item. *)
Fixpoint at_path (path : list (option nat)) (e : Event) : Event :=
  match path with
  | [] => e
  | Some index :: path' => InProperty index (at_path path' e)
  | None :: path' => InItems (at_path path' e)
  end.

(** The keys [convertField] writes on the schema of a field. *)
Definition schema_keys : list string :=
  ["type"; "description"; "properties"; "required"; "items"].

(** [rest] is [l] without the element at [index]: one element shorter,
    the same up to [index], and shifted down by one from there on. *)
Definition removed_at {A} (index : nat) (l rest : list A) : Prop :=
  length rest = length l - 1 /\
  (forall j, j < index -> rest !! j = l !! j) /\
  (forall j, index <= j -> rest !! j = l !! S j).

(** [canHaveChildren] of the editor: whether the expand toggle is
    rendered. *)
Definition canHaveChildren (field : SchemaField) : bool :=
  match type field with
  | TObject | TArray => true
  | _ => false
  end.

(** The part of a tree the generator reads: [properties] under an
    object and [items] under an array, and so on below them; what a field
    keeps from an earlier type is dropped. *)
Fixpoint visible (f : SchemaField) : SchemaField :=
  match f with
  | mkSchemaField i n t r d ps it =>
      mkSchemaField i n t r d
        (match t, ps with
         | TObject, Some l => Some (map visible l)
         | _, _ => None
         end)
        (match t, it with
         | TArray, Some g => Some (visible g)
         | _, _ => None
         end)
  end.

(** Two fields a parent cannot tell apart when it compiles them: the
    same name, the same [required], the same compiled schema. *)
Definition same_schema (a b : SchemaField) : Prop :=
  name a = name b /\ required a = required b /\ convertField a = convertField b.

(** The events that edit the label of a field: its name or its
    [required] badge. *)
Definition label_edit (e : Event) : Prop :=
  match e with
  | NameChange _ | RequiredClick => True
  | _ => False
  end.

(** ** Sample inputs *)

(** An object with three children, the first and the last required. *)
Definition object_with_required : SchemaField :=
  {| id := "field_1"; name := "user"; type := TObject; required := false;
     description := None;
     properties := Some
       [ {| id := "field_2"; name := "zip"; type := TString; required := true;
            description := None; properties := None; items := None |};
         {| id := "field_3"; name := "note"; type := TString; required := false;
            description := None; properties := None; items := None |};
         {| id := "field_4"; name := "city"; type := TString; required := true;
            description := None; properties := None; items := None |} ];
     items := None |}.

(** An object whose first two children share the empty name. *)
Definition object_with_duplicates : SchemaField :=
  {| id := "field_1"; name := "user"; type := TObject; required := false;
     description := None;
     properties := Some
       [ {| id := "field_2"; name := ""; type := TString; required := true;
            description := None; properties := None; items := None |};
         {| id := "field_3"; name := ""; type := TNumber; required := false;
            description := None; properties := None; items := None |};
         {| id := "field_4"; name := "city"; type := TString; required := true;
            description := None; properties := None; items := None |} ];
     items := None |}.

(** An object whose two children are both named [__proto__]. *)
Definition object_with_proto_children : SchemaField :=
  {| id := "field_1"; name := "user"; type := TObject; required := false;
     description := None;
     properties := Some
       [ {| id := "field_2"; name := "__proto__"; type := TString;
            required := false;
            description := None; properties := None; items := None |};
         {| id := "field_3"; name := "__proto__"; type := TNumber;
            required := false;
            description := None; properties := None; items := None |} ];
     items := None |}.

(** A string field that was an object and an array before. *)
Definition string_with_leftovers : SchemaField :=
  {| id := "field_1"; name := "user"; type := TString; required := false;
     description := None;
     properties := Some
       [ {| id := "field_2"; name := "zip"; type := TString; required := true;
            description := None; properties := None; items := None |} ];
     items := Some (FieldEditor.default_items 7) |}.

(** Two root sequences that differ in their ids only. *)
Definition ids_one : list SchemaField :=
  [ {| id := "field_1"; name := "tags"; type := TArray; required := true;
       description := None; properties := None;
       items := Some (FieldEditor.default_items 1700000000000) |} ].

Definition ids_two : list SchemaField :=
  [ {| id := "field_1700000000123_k3j9x0a1b"; name := "tags"; type := TArray;
       required := true; description := None; properties := None;
       items := Some (FieldEditor.default_items 1700000005000) |} ].

(** An array of strings, as the type select makes it. *)
Definition tags_array : SchemaField :=
  {| id := "field_1"; name := "tags"; type := TArray; required := true;
     description := None; properties := None;
     items := Some (FieldEditor.default_items 1700000000000) |}.

(** A session that adds, nests, edits, deletes and switches types. *)
Definition session : list PageEvent :=
  [ AddFieldClick 1700000000000 "k3j9x0a1b";
    InField 2 (TypeChange TObject 1700000001000);
    InField 2 (AddPropertyClick 1700000002000 "zz81hq0p2");
    InField 2 (AddPropertyClick 1700000003000 "m4n5b6v7c");
    InField 2 (InProperty 0 (TypeChange TArray 1700000004000));
    InField 2 (InProperty 0 (InItems (NameChange "entry")));
    InField 2 (InProperty 1 DeleteClick);
    InField 2 (TypeChange TNumber 1700000005000);
    InField 0 DeleteClick ].

(** ** Tactics *)

(** Closes [k ∉ l] for a literal key and a literal list of keys. *)
Ltac no_such_key :=
  let H := fresh in
  intros H; repeat (apply elem_of_cons in H as [H|H]; [discriminate H|]);
  by apply elem_of_nil in H.

(** Closes [shape_kept] of an updated field from [Hs], the one of the
    field before. *)
Ltac shape_kept_tac Hs :=
  unfold shape_kept in *; simpl in *;
  split; intros ?; simplify_eq; try done; try (by eexists);
  try (by apply Hs).

(** ** Lemmas on objects and arrays *)

Lemma obj_get_put_eq k v o : obj_get k (obj_put k v o) = Some v.
Proof.
  induction o as [|[k' v'] o IH]; simpl.
  - by rewrite String.eqb_refl.
  - destruct (String.eqb k k') eqn:E; simpl; rewrite E; [done | exact IH].
Qed.

Lemma obj_get_put_ne k k' v o :
  k <> k' -> obj_get k' (obj_put k v o) = obj_get k' o.
Proof.
  intros Hne. induction o as [|[k0 v0] o IH]; simpl.
  - destruct (String.eqb_spec k' k); [congruence | done].
  - destruct (String.eqb_spec k k0) as [<-|Hk]; simpl.
    + destruct (String.eqb_spec k' k); [congruence | done].
    + by rewrite IH.
Qed.

Lemma obj_keys_put k v o :
  obj_keys (obj_put k v o)
  = if decide (k ∈ obj_keys o) then obj_keys o else (obj_keys o ++ [k])%list.
Proof.
  induction o as [|[k0 v0] o IH].
  - destruct (decide (k ∈ obj_keys [])) as [H|H]; [|done].
    by apply elem_of_nil in H.
  - cbn [obj_put]. destruct (String.eqb_spec k k0) as [<-|Hk].
    + destruct (decide (k ∈ obj_keys ((k, v0) :: o))) as [H|H]; [done|].
      destruct H. left.
    + change (obj_keys ((k0, v0) :: obj_put k v o))
        with (k0 :: obj_keys (obj_put k v o)).
      change (obj_keys ((k0, v0) :: o)) with (k0 :: obj_keys o).
      rewrite IH.
      destruct (decide (k ∈ obj_keys o)) as [Hin|Hin],
        (decide (k ∈ k0 :: obj_keys o)) as [Hin'|Hin']; try done.
      * destruct Hin'. by right.
      * apply elem_of_cons in Hin' as [?|?]; done.
Qed.

Lemma obj_get_put_index_eq n k v o : obj_get k (obj_put_index n k v o) = Some v.
Proof.
  induction o as [|[k' v'] o IH]; simpl.
  - by rewrite String.eqb_refl.
  - destruct (String.eqb k k') eqn:E; simpl; [by rewrite E|].
    destruct (array_index k') as [m|]; [destruct (m <? n)%N|]; simpl;
      rewrite ?E, ?String.eqb_refl; done.
Qed.

Lemma obj_get_put_index_ne n k k' v o :
  k <> k' -> obj_get k' (obj_put_index n k v o) = obj_get k' o.
Proof.
  intros Hne.
  assert (Hk : String.eqb k' k = false) by (apply String.eqb_neq; congruence).
  induction o as [|[k0 v0] o IH]; simpl.
  - by rewrite Hk.
  - destruct (String.eqb_spec k k0) as [<-|Hk0]; simpl.
    + by rewrite Hk.
    + destruct (array_index k0) as [m|]; [destruct (m <? n)%N|]; simpl;
        rewrite ?Hk, ?IH; done.
Qed.

Lemma obj_keys_put_index n k v o :
  forall k', k' ∈ obj_keys (obj_put_index n k v o) <-> k' = k \/ k' ∈ obj_keys o.
Proof.
  intros k'. induction o as [|[k0 v0] o IH]; simpl.
  - rewrite list_elem_of_singleton, elem_of_nil. tauto.
  - destruct (String.eqb_spec k k0) as [<-|Hk0]; simpl.
    + rewrite elem_of_cons. tauto.
    + destruct (array_index k0) as [m|]; [destruct (m <? n)%N|]; simpl;
        rewrite !elem_of_cons, ?IH; tauto.
Qed.

Lemma obj_set_proto v o : obj_set "__proto__" v o = o.
Proof. reflexivity. Qed.

Lemma obj_get_set_eq k v o :
  k <> "__proto__" -> obj_get k (obj_set k v o) = Some v.
Proof.
  intros Hk. unfold obj_set.
  destruct (String.eqb_spec k "__proto__"); [done|].
  destruct (array_index k); [apply obj_get_put_index_eq | apply obj_get_put_eq].
Qed.

Lemma obj_get_set_ne k k' v o :
  k <> k' -> obj_get k' (obj_set k v o) = obj_get k' o.
Proof.
  intros Hne. unfold obj_set. destruct (String.eqb k "__proto__"); [done|].
  destruct (array_index k);
    [by apply obj_get_put_index_ne | by apply obj_get_put_ne].
Qed.

Lemma obj_keys_set k v o :
  k <> "__proto__" ->
  forall k', k' ∈ obj_keys (obj_set k v o) <-> k' = k \/ k' ∈ obj_keys o.
Proof.
  intros Hk k'. unfold obj_set.
  destruct (String.eqb_spec k "__proto__"); [done|].
  destruct (array_index k); [apply obj_keys_put_index|].
  rewrite obj_keys_put. destruct (decide (k ∈ obj_keys o)) as [Hin|Hin].
  - split; [tauto | intros [->|?]; done].
  - rewrite elem_of_app, list_elem_of_singleton. tauto.
Qed.

Lemma filter_from_skip {A} (t : nat) (l : list A) (i : nat) :
  t < i -> filter_from (fun _ j => negb (j =? t)%nat) i l = l.
Proof.
  revert i. induction l as [|x l IH]; intros i Hi; [done|].
  simpl. replace (i =? t)%nat with false by (symmetry; apply Nat.eqb_neq; lia).
  simpl. f_equal. apply IH. lia.
Qed.

Lemma filter_from_delete {A} (t : nat) (l : list A) (i : nat) :
  i <= t -> filter_from (fun _ j => negb (j =? t)%nat) i l = delete (t - i) l.
Proof.
  revert i. induction l as [|x l IH]; intros i Hi; [done|].
  simpl. destruct (Nat.eqb_spec i t) as [->|Hne]; simpl.
  - rewrite Nat.sub_diag. simpl. apply filter_from_skip. lia.
  - replace (t - i) with (S (t - S i)) by lia. simpl. f_equal. apply IH. lia.
Qed.

Lemma array_filter_delete {A} (index : nat) (l : list A) :
  array_filter (fun _ i => negb (i =? index)%nat) l = delete index l.
Proof.
  unfold array_filter. rewrite filter_from_delete by lia. by rewrite Nat.sub_0_r.
Qed.

Lemma array_set_lookup {A} (l : list A) (i : nat) (x y : A) :
  l !! i = Some y -> array_set i x l = Some (<[i:=x]> l).
Proof.
  intros H. apply lookup_lt_Some in H. unfold array_set.
  by replace (i <? length l)%nat with true by (symmetry; apply Nat.ltb_lt; lia).
Qed.

(** ** Lemmas on the generator *)

Lemma convertField_eq field :
  convertField field =
    let baseSchema := [("type", JString (type_string (type field)))] in
    let baseSchema :=
      if truthy (description field)
      then obj_set "description" (JString (default "" (description field))) baseSchema
      else baseSchema in
    let baseSchema :=
      match type field, properties field with
      | TObject, Some ps =>
          let acc := fold_left (collect convertField) ps ([], []) in
          let baseSchema := obj_set "properties" (JObject (fst acc)) baseSchema in
          if (0 <? length (snd acc))%nat
          then obj_set "required" (JArray (map JString (snd acc))) baseSchema
          else baseSchema
      | _, _ => baseSchema
      end in
    let baseSchema :=
      match type field, items field with
      | TArray, Some it => obj_set "items" (convertField it) baseSchema
      | _, _ => baseSchema
      end in
    JObject baseSchema.
Proof. destruct field; reflexivity. Qed.

Section Collect.
Variable convert : SchemaField -> json.

Lemma collect_required l acc :
  snd (fold_left (collect convert) l acc)
  = (snd acc ++ map name (List.filter required l))%list.
Proof.
  revert acc. induction l as [|f l IH]; intros acc; simpl.
  - by rewrite app_nil_r.
  - rewrite IH. unfold collect. simpl.
    destruct (required f); simpl; [by rewrite <- app_assoc | done].
Qed.

Lemma collect_absent k l acc :
  Forall (fun g => name g <> k) l ->
  obj_get k (fst (fold_left (collect convert) l acc)) = obj_get k (fst acc).
Proof.
  intros H. revert acc. induction H as [|f l Hf _ IH]; intros acc; simpl; [done|].
  rewrite IH. simpl. by apply obj_get_set_ne.
Qed.

Lemma collect_last pre f post acc :
  name f <> "__proto__" ->
  Forall (fun g => name g <> name f) post ->
  obj_get (name f) (fst (fold_left (collect convert) (pre ++ f :: post) acc))
  = Some (convert f).
Proof.
  intros Hf H. rewrite fold_left_app. simpl.
  rewrite collect_absent by done. simpl. by apply obj_get_set_eq.
Qed.

Lemma collect_proto l acc :
  obj_get "__proto__" (fst (fold_left (collect convert) l acc))
  = obj_get "__proto__" (fst acc).
Proof.
  revert acc. induction l as [|f l IH]; intros acc; simpl; [done|].
  rewrite IH. simpl. destruct (String.eqb_spec (name f) "__proto__") as [->|Hf].
  - by rewrite obj_set_proto.
  - by apply obj_get_set_ne.
Qed.

Lemma collect_keys l acc k :
  k ∈ obj_keys (fst (fold_left (collect convert) l acc))
  <-> k ∈ obj_keys (fst acc) \/ (k ∈ map name l /\ k <> "__proto__").
Proof.
  revert acc. induction l as [|f l IH]; intros acc; simpl.
  - rewrite elem_of_nil. tauto.
  - rewrite IH. simpl. rewrite elem_of_cons.
    destruct (String.eqb_spec (name f) "__proto__") as [Hf|Hf].
    + rewrite Hf, obj_set_proto. split; [tauto|].
      intros [?|[[->|?] ?]]; tauto.
    + rewrite (obj_keys_set _ _ _ Hf). split; [|tauto].
      intros [[->|?]|?]; tauto.
Qed.

Lemma collect_snoc l f acc :
  fold_left (collect convert) (l ++ [f]) acc
  = collect convert (fold_left (collect convert) l acc) f.
Proof. by rewrite fold_left_app. Qed.
End Collect.

(** ** The generator on the documented examples *)

Example generateJsonSchema_name_age :
  generateJsonSchema
    [ {| id := "field_1"; name := "name"; type := TString; required := true;
         description := None; properties := None; items := None |};
      {| id := "field_2"; name := "age"; type := TNumber; required := false;
         description := None; properties := None; items := None |} ]
  = JObject
      [ ("type", JString "object");
        ("properties",
         JObject [ ("name", JObject [("type", JString "string")]);
                   ("age", JObject [("type", JString "number")]) ]);
        ("required", JArray [JString "name"]) ].
Proof. reflexivity. Qed.

Example convertField_tags :
  convertField
    {| id := "field_1"; name := "tags"; type := TArray; required := false;
       description := None; properties := None;
       items := Some (FieldEditor.default_items 1700000000000) |}
  = JObject [ ("type", JString "array");
              ("items", JObject [("type", JString "string")]) ].
Proof. reflexivity. Qed.

Example convertField_empty_object :
  convertField
    {| id := "field_1"; name := "user"; type := TObject; required := false;
       description := Some ""; properties := Some []; items := None |}
  = JObject [ ("type", JString "object"); ("properties", JObject []) ].
Proof. reflexivity. Qed.

Example generateJsonSchema_empty :
  generateJsonSchema []
  = JObject [ ("type", JString "object"); ("properties", JObject []) ].
Proof. reflexivity. Qed.

Example generateJsonSchema_initial :
  generateJsonSchema Index.initial
  = JObject
      [ ("type", JString "object");
        ("properties",
         JObject
           [ ("name", JObject [ ("type", JString "string");
                                ("description", JString "The name of the user") ]);
             ("age", JObject [ ("type", JString "number");
                               ("description", JString "The age of the user") ]) ]);
        ("required", JArray [JString "name"]) ].
Proof. reflexivity. Qed.

(** ** The order of the keys of an object *)

Lemma array_index_pretty k n : array_index k = Some n -> pretty n = k.
Proof.
  unfold array_index. destruct k as [|c k]; [done|].
  destruct (digits_value 0 (String c k)) as [m|]; [|done].
  destruct (m <? 4294967295)%N; simpl; [|done].
  destruct (String.eqb_spec (pretty m) (String c k)); [|done].
  by intros [= <-].
Qed.

Lemma array_index_inj a b n :
  array_index a = Some n -> array_index b = Some n -> a = b.
Proof.
  intros Ha%array_index_pretty Hb%array_index_pretty. congruence.
Qed.

Lemma index_lt_trans a b c : index_lt a b -> index_lt b c -> index_lt a c.
Proof.
  unfold index_lt.
  destruct (array_index a), (array_index b), (array_index c); try done. lia.
Qed.

Lemma elem_of_filter_bool {A} (p : A -> bool) (l : list A) (x : A) :
  x ∈ List.filter p l <-> x ∈ l /\ p x = true.
Proof. rewrite !list_elem_of_In. apply List.filter_In. Qed.

Lemma filter_bool_app {A} (p : A -> bool) (l1 l2 : list A) :
  List.filter p (l1 ++ l2) = (List.filter p l1 ++ List.filter p l2)%list.
Proof. apply List.filter_app. Qed.

Lemma elem_of_first_seen l k : k ∈ first_seen l <-> k ∈ l.
Proof.
  induction l as [|x l IH]; simpl; [done|].
  rewrite !elem_of_cons, elem_of_filter_bool, IH.
  destruct (String.eqb_spec k x) as [->|Hne]; simpl; [tauto|].
  split; [tauto | intros [?|?]; [done | tauto]].
Qed.

Lemma first_seen_snoc l k :
  first_seen (l ++ [k])
  = if decide (k ∈ l) then first_seen l else (first_seen l ++ [k])%list.
Proof.
  induction l as [|x l IH].
  - destruct (decide (k ∈ [])) as [H|H]; [by apply elem_of_nil in H | done].
  - change (first_seen ((x :: l) ++ [k]))
      with (x :: List.filter (fun k' => negb (String.eqb k' x))
                   (first_seen (l ++ [k]))).
    rewrite IH. cbn [first_seen].
    destruct (decide (k ∈ l)) as [Hin|Hin],
      (decide (k ∈ x :: l)) as [Hin'|Hin']; try done.
    + destruct Hin'. by right.
    + apply elem_of_cons in Hin' as [->|?]; [|done].
      rewrite filter_bool_app. simpl. rewrite String.eqb_refl. simpl.
      by rewrite app_nil_r.
    + rewrite filter_bool_app. simpl.
      destruct (String.eqb_spec k x) as [->|Hne]; [|done].
      destruct Hin'. left.
Qed.

Lemma obj_put_index_order n k v :
  array_index k = Some n ->
  forall idx o strs,
    obj_keys o = (idx ++ strs)%list ->
    Forall (fun a => is_Some (array_index a)) idx ->
    StronglySorted index_lt idx ->
    Forall (fun a => array_index a = None) strs ->
    exists idx',
      obj_keys (obj_put_index n k v o) = (idx' ++ strs)%list /\
      Forall (fun a => is_Some (array_index a)) idx' /\
      StronglySorted index_lt idx' /\
      (forall x, x ∈ idx' -> x = k \/ x ∈ idx).
Proof.
  intros Hk. induction idx as [|a idx IH]; intros o strs Ho Hidx Hs Hstrs.
  - exists [k]. simpl in Ho.
    assert (obj_keys (obj_put_index n k v o) = k :: strs) as ->.
    { destruct o as [|[k0 v0] o]; simpl in *; [by subst|].
      subst strs. apply Forall_cons in Hstrs as [Hk0 _].
      destruct (String.eqb_spec k k0) as [<-|_]; [congruence|].
      by rewrite Hk0. }
    split; [done|]. split; [by apply Forall_singleton|].
    split; [repeat constructor|].
    intros x ->%list_elem_of_singleton. by left.
  - destruct o as [|[k0 v0] o]; [done|]. simpl in Ho.
    injection Ho as -> Ho.
    apply Forall_cons in Hidx as [[m Hm] Hidx].
    apply StronglySorted_inv in Hs as [Hs Ha]. simpl.
    destruct (String.eqb_spec k a) as [<-|Hne].
    + exists (k :: idx). simpl. rewrite Ho. split; [done|].
      split; [apply Forall_cons; eauto|]. split; [by constructor|].
      intros x. rewrite elem_of_cons. tauto.
    + rewrite Hm. destruct (N.ltb_spec m n) as [Hlt|Hge].
      * destruct (IH o strs Ho Hidx Hs Hstrs) as (idx' & Hk' & Hi' & Hs' & Hsub).
        exists (a :: idx'). simpl. rewrite Hk'. split; [done|].
        split; [apply Forall_cons; eauto|]. split.
        -- constructor; [done|]. apply Forall_forall. intros x Hx.
           destruct (Hsub x Hx) as [->|Hx'].
           ++ unfold index_lt. by rewrite Hm, Hk.
           ++ rewrite Forall_forall in Ha. by apply Ha.
        -- intros x. rewrite !elem_of_cons. intros [->|Hx]; [tauto|].
           destruct (Hsub x Hx); tauto.
      * exists (k :: a :: idx). simpl. rewrite Ho. split; [done|].
        assert (Hka : index_lt k a).
        { unfold index_lt. rewrite Hk, Hm.
          assert (m <> n) by (intros ->; by destruct Hne;
                              apply (array_index_inj _ _ n)).
          lia. }
        split; [repeat apply Forall_cons; eauto|]. split.
        -- constructor; [by constructor|]. apply Forall_cons. split; [done|].
           eapply Forall_impl; [exact Ha|]. intros x. by apply index_lt_trans.
        -- intros x. rewrite !elem_of_cons. tauto.
Qed.

Lemma plain_name_spec k :
  plain_name k = true <-> k <> "__proto__" /\ array_index k = None.
Proof.
  unfold plain_name. destruct (String.eqb_spec k "__proto__"), (array_index k);
    simpl; split; try done; intros [? ?]; done.
Qed.

Lemma collect_key_order (convert : SchemaField -> json) (l : list SchemaField) :
  exists idx,
    obj_keys (fst (fold_left (collect convert) l ([], [])))
    = (idx ++ first_seen (List.filter plain_name (map name l)))%list /\
    Forall (fun a => is_Some (array_index a)) idx /\
    StronglySorted index_lt idx.
Proof.
  induction l as [|f l IH] using rev_ind.
  - exists []. repeat split; constructor.
  - destruct IH as (idx & Hkeys & Hidx & Hs).
    rewrite collect_snoc, map_app, filter_bool_app. simpl.
    set (o := fst (fold_left (collect convert) l ([], []))) in *.
    set (names := List.filter plain_name (map name l)) in *.
    assert (Hplain : Forall (fun a => array_index a = None) (first_seen names)).
    { apply Forall_forall. intros x Hx.
      apply (proj1 (elem_of_first_seen _ _)) in Hx.
      apply (proj1 (elem_of_filter_bool _ _ _)) in Hx as [_ Hx].
      apply plain_name_spec in Hx as [_ Hx]. exact Hx. }
    unfold obj_set. destruct (plain_name (name f)) eqn:Hp.
    + apply plain_name_spec in Hp as [Hproto Hno].
      destruct (String.eqb_spec (name f) "__proto__"); [done|]. rewrite Hno.
      exists idx. split; [|done]. rewrite obj_keys_put, Hkeys, first_seen_snoc.
      assert (name f ∈ (idx ++ first_seen names)%list <-> name f ∈ names) as Hiff.
      { rewrite elem_of_app, elem_of_first_seen. split; [|tauto].
        intros [Hin|?]; [|done]. rewrite Forall_forall in Hidx.
        destruct (Hidx _ Hin) as [? ?]. congruence. }
      destruct (decide (name f ∈ (idx ++ first_seen names)%list)) as [H|H],
        (decide (name f ∈ names)) as [H'|H']; try tauto.
      by rewrite app_assoc.
    + simpl. rewrite app_nil_r.
      destruct (String.eqb_spec (name f) "__proto__") as [_|Hproto];
        [by exists idx|].
      destruct (array_index (name f)) as [n|] eqn:Hn.
      * destruct (obj_put_index_order n (name f) (convert f) Hn idx o
                    (first_seen names) Hkeys Hidx Hs Hplain)
          as (idx' & Hk' & Hi' & Hs' & _).
        by exists idx'.
      * assert (plain_name (name f) = true) by by apply plain_name_spec.
        congruence.
Qed.

Example array_index_examples :
  array_index "0" = Some 0%N /\ array_index "10" = Some 10%N /\
  array_index "4294967294" = Some 4294967294%N /\
  array_index "4294967295" = None /\ array_index "01" = None /\
  array_index "" = None /\ array_index "1e3" = None /\ array_index "-1" = None.
Proof. repeat split; reflexivity. Qed.

Example obj_set_key_order :
  obj_keys
    (fold_left (fun o k => obj_set k (JObject []) o)
       ["b"; "01"; "10"; "4294967295"; "2"; "__proto__"; "b"; "0"] [])
  = ["0"; "2"; "10"; "b"; "01"; "4294967295"].
Proof. reflexivity. Qed.

(** ** The top level of the generated schema *)

(** C1, as amended.  For every root sequence, the empty one included,
    [generateJsonSchema] returns an object whose [type] is ["object"] and
    whose [properties] is an object that binds the name of a root field,
    when the name is not [__proto__], to the schema compiled from the
    last root field of that name, and has among those names no other
    key.  Its keys are first the names that are array indices, by
    ascending value, and then the other names, each where it comes first
    in the root sequence.  [required] is the array of the names of the
    root fields with [required = true], in the order of the sequence, and
    the key is absent when there is no such field.  The object has no
    key besides these. *)
Theorem generateJsonSchema_top_level (schema : list SchemaField) :
  exists props,
    member "type" (generateJsonSchema schema) = Some (JString "object") /\
    member "properties" (generateJsonSchema schema) = Some (JObject props) /\
    (forall pre f post,
        schema = (pre ++ f :: post)%list ->
        name f <> "__proto__" ->
        Forall (fun g => name g <> name f) post ->
        obj_get (name f) props = Some (convertField f)) /\
    (forall k, k <> "__proto__" -> k ∈ obj_keys props <-> k ∈ map name schema) /\
    (exists idx,
        obj_keys props
        = (idx ++ first_seen (List.filter plain_name (map name schema)))%list /\
        Forall (fun a => is_Some (array_index a)) idx /\
        StronglySorted index_lt idx) /\
    member "required" (generateJsonSchema schema)
    = match List.filter required schema with
      | [] => None
      | rs => Some (JArray (map JString (map name rs)))
      end /\
    keys_of (generateJsonSchema schema)
    = match List.filter required schema with
      | [] => ["type"; "properties"]
      | _ => ["type"; "properties"; "required"]
      end.
Proof.
  exists (fst (fold_left (collect convertField) schema ([], []))).
  unfold generateJsonSchema.
  pose proof (collect_required convertField schema ([], [])) as Hr.
  simpl in Hr. rewrite Hr.
  split; [by destruct (List.filter required schema)|].
  split; [by destruct (List.filter required schema)|].
  split; [intros pre f post -> Hf Hpost; by apply collect_last|].
  split.
  { intros k Hk. rewrite collect_keys. simpl. rewrite elem_of_nil. tauto. }
  split; [apply collect_key_order|].
  split; by destruct (List.filter required schema).
Qed.

(** C1, as stated, fails in both of its parts.  With two root fields of
    the same name, the name is bound to the schema of the second one;
    and with the root names ["b"], ["10"], ["2"], the keys of
    [properties] come as ["2"], ["10"], ["b"]. *)
Lemma generateJsonSchema_roots_not_as_stated :
  ~ binds_every_root
      [ {| id := "field_1"; name := "a"; type := TString; required := false;
           description := None; properties := None; items := None |};
        {| id := "field_2"; name := "a"; type := TNumber; required := false;
           description := None; properties := None; items := None |} ] /\
  ~ keys_in_root_order
      [ {| id := "field_1"; name := "b"; type := TString; required := false;
           description := None; properties := None; items := None |};
        {| id := "field_2"; name := "10"; type := TString; required := false;
           description := None; properties := None; items := None |};
        {| id := "field_3"; name := "2"; type := TString; required := false;
           description := None; properties := None; items := None |} ].
Proof.
  split.
  - intros (props & Hprops & Hall).
    vm_compute in Hprops. injection Hprops as <-.
    specialize (Hall _ (list_elem_of_here _ _)).
    vm_compute in Hall. discriminate.
  - intros (props & Hprops & Hkeys).
    vm_compute in Hprops. injection Hprops as <-.
    vm_compute in Hkeys. discriminate.
Qed.

Lemma filter_required_cons (l : list SchemaField) :
  List.filter required l <> [] <-> exists c, c ∈ l /\ required c = true.
Proof.
  induction l as [|f l IH]; simpl.
  - split; [done | intros (c & Hc & _); by apply elem_of_nil in Hc].
  - destruct (required f) eqn:E.
    + split; [intros _; exists f; split; [left | done] | done].
    + rewrite IH. split.
      * intros (c & Hc & Hr). exists c. split; [by right | done].
      * intros (c & Hc & Hr). apply elem_of_cons in Hc as [->|Hc];
          [congruence | eauto].
Qed.

(** C2.  The schema compiled from a field of type ["object"] that has
    [properties] holds a [required] key exactly when one of the children
    has [required = true], and the value is then the array of the names
    of those children in the order of [properties]. *)
Theorem convertField_object_required (f : SchemaField) (ps : list SchemaField) :
  type f = TObject ->
  properties f = Some ps ->
  ("required" ∈ keys_of (convertField f)
   <-> exists c, c ∈ ps /\ required c = true) /\
  member "required" (convertField f)
  = match List.filter required ps with
    | [] => None
    | rs => Some (JArray (map JString (map name rs)))
    end.
Proof.
  intros Ht Hps. rewrite <- filter_required_cons.
  rewrite convertField_eq, Ht, Hps. cbv zeta.
  rewrite (collect_required convertField ps ([], [])). simpl.
  destruct (truthy (description f)), (List.filter required ps) as [|r rs];
    simpl; (split; [split|]).
  all: try done; try no_such_key; try (intros H; by destruct H).
  all: intros _; rewrite !elem_of_cons; auto 6.
Qed.

Lemma convertField_object_required_witness :
  member "required" (convertField object_with_required)
  = Some (JArray [JString "zip"; JString "city"]).
Proof.
  exact (proj2 (convertField_object_required object_with_required _
                  eq_refl eq_refl)).
Defined.

(** C6, at the input where the code departs from it.  In the schema
    compiled from a field of type ["object"], the [properties] object
    never has the key [__proto__]: children of that name, however many,
    are compiled and then bound to nothing. *)
Theorem convertField_never_binds_proto (f : SchemaField) (ps : list SchemaField) :
  type f = TObject ->
  properties f = Some ps ->
  exists props,
    member "properties" (convertField f) = Some (JObject props) /\
    obj_get "__proto__" props = None.
Proof.
  intros Ht Hps.
  exists (fst (fold_left (collect convertField) ps ([], []))). split.
  - rewrite convertField_eq, Ht, Hps. cbv zeta.
    by destruct (truthy (description f)),
      (0 <? length (snd (fold_left (collect convertField) ps ([], []))))%nat.
  - by rewrite collect_proto.
Qed.

Lemma convertField_never_binds_proto_witness :
  exists props,
    member "properties" (convertField object_with_proto_children)
    = Some (JObject props) /\
    obj_get "__proto__" props = None.
Proof.
  exact (convertField_never_binds_proto object_with_proto_children _
           eq_refl eq_refl).
Defined.

(** X18.  In the schema compiled from a field of type ["object"], the
    [properties] object binds the name of a child, when the name is not
    [__proto__], to the schema compiled from the last child of that name,
    however many children share the name and whether or not the name is
    empty; compiling always returns an object. *)
Theorem convertField_last_write_wins
    (f : SchemaField) (pre post : list SchemaField) (c : SchemaField) :
  type f = TObject ->
  properties f = Some (pre ++ c :: post)%list ->
  name c <> "__proto__" ->
  Forall (fun g => name g <> name c) post ->
  (exists o, convertField f = JObject o) /\
  exists props,
    member "properties" (convertField f) = Some (JObject props) /\
    obj_get (name c) props = Some (convertField c).
Proof.
  intros Ht Hps Hc Hpost. split.
  - rewrite convertField_eq. cbv zeta. eauto.
  - exists (fst (fold_left (collect convertField) (pre ++ c :: post) ([], []))).
    split; [|by apply collect_last].
    rewrite convertField_eq, Ht, Hps. cbv zeta.
    by destruct (truthy (description f)),
      (0 <? length (snd (fold_left (collect convertField)
                           (pre ++ c :: post) ([], []))))%nat.
Qed.

Lemma convertField_last_write_wins_witness :
  exists props,
    member "properties" (convertField object_with_duplicates)
    = Some (JObject props) /\
    obj_get "" props = Some (JObject [("type", JString "number")]).
Proof.
  refine (proj2 (convertField_last_write_wins object_with_duplicates
    [ {| id := "field_2"; name := ""; type := TString; required := true;
         description := None; properties := None; items := None |} ]
    [ {| id := "field_4"; name := "city"; type := TString; required := true;
         description := None; properties := None; items := None |} ]
    {| id := "field_3"; name := ""; type := TNumber; required := false;
       description := None; properties := None; items := None |}
    eq_refl eq_refl _ _)).
  - discriminate.
  - repeat constructor. discriminate.
Defined.

(** C9.  The schema compiled from a field whose type is not ["object"]
    has no [properties] key and no [required] key, and the schema compiled
    from a field whose type is not ["array"] has no [items] key, whatever
    the field still holds under [properties] and [items]. *)
Theorem convertField_ignores_leftovers (f : SchemaField) :
  (type f <> TObject ->
   ("properties" ∉ keys_of (convertField f)) /\
   ("required" ∉ keys_of (convertField f))) /\
  (type f <> TArray -> "items" ∉ keys_of (convertField f)).
Proof.
  rewrite convertField_eq. cbv zeta. split; intros Ht.
  - destruct (type f), (truthy (description f)), (properties f),
      (items f); try done; simpl; split; no_such_key.
  - destruct (type f), (truthy (description f)), (properties f) as [ps|],
      (items f); try done; simpl;
      try destruct (0 <? length _)%nat; simpl; no_such_key.
Qed.

Lemma convertField_ignores_leftovers_witness :
  (("properties" ∉ keys_of (convertField string_with_leftovers)) /\
   ("required" ∉ keys_of (convertField string_with_leftovers))) /\
  ("items" ∉ keys_of (convertField string_with_leftovers)).
Proof.
  split.
  - apply (proj1 (convertField_ignores_leftovers string_with_leftovers)).
    discriminate.
  - apply (proj2 (convertField_ignores_leftovers string_with_leftovers)).
    discriminate.
Defined.

(** ** Ids and the generated schema *)

Lemma erase_ids_name f : name (erase_ids f) = name f.
Proof. by destruct f. Qed.

Lemma erase_ids_required f : required (erase_ids f) = required f.
Proof. by destruct f. Qed.

Lemma collect_erase_ids l acc :
  Forall (fun c => convertField (erase_ids c) = convertField c) l ->
  fold_left (collect convertField) (map erase_ids l) acc
  = fold_left (collect convertField) l acc.
Proof.
  intros H. revert acc. induction H as [|c l Hc _ IH]; intros acc; [done|].
  simpl. rewrite IH. f_equal. unfold collect.
  by rewrite erase_ids_name, erase_ids_required, Hc.
Qed.

Lemma convertField_erase_ids f : convertField (erase_ids f) = convertField f.
Proof.
  induction f as [i n t r d ps it IHps IHit] using SchemaField_tree_ind.
  simpl. destruct ps as [l|], it as [g|]; simpl;
    rewrite ?collect_erase_ids, ?IHit by done; done.
Qed.

Lemma generateJsonSchema_erase_ids schema :
  generateJsonSchema (map erase_ids schema) = generateJsonSchema schema.
Proof.
  unfold generateJsonSchema. rewrite collect_erase_ids; [done|].
  apply Forall_forall. intros c _. apply convertField_erase_ids.
Qed.

Lemma elem_of_flat_map {A B} (g : A -> list B) (l : list A) (y : B) :
  y ∈ flat_map g l <-> exists x, x ∈ l /\ y ∈ g x.
Proof.
  induction l as [|x l IH]; simpl.
  - split; [by intros ?%elem_of_nil | by intros (? & ?%elem_of_nil & _)].
  - rewrite elem_of_app, IH. split.
    + intros [H|(x' & Hx' & H)]; [exists x | exists x']; split; auto;
        [left | by right].
    + intros (x' & [->|Hx']%elem_of_cons & H); eauto.
Qed.

Lemma all_keys_object k o :
  k ∈ all_keys (JObject o) <->
  exists k' v', (k', v') ∈ o /\ (k = k' \/ k ∈ all_keys v').
Proof.
  simpl. rewrite elem_of_flat_map. split.
  - intros ([k' v'] & Hin & Hk). exists k', v'. split; [done|].
    by apply elem_of_cons in Hk.
  - intros (k' & v' & Hin & Hk). exists (k', v'). split; [done|].
    by apply elem_of_cons.
Qed.

Lemma obj_set_entries k0 v o e :
  e ∈ obj_set k0 v o -> e = (k0, v) \/ e ∈ o.
Proof.
  unfold obj_set. destruct (String.eqb k0 "__proto__"); [by right|].
  destruct (array_index k0) as [n|].
  - induction o as [|[k1 v1] o IH]; simpl.
    + intros ->%list_elem_of_singleton. by left.
    + destruct (String.eqb_spec k0 k1) as [<-|_].
      * rewrite !elem_of_cons. tauto.
      * destruct (array_index k1) as [m|]; [destruct (m <? n)%N|];
          rewrite !elem_of_cons; tauto.
  - induction o as [|[k1 v1] o IH]; simpl.
    + intros ->%list_elem_of_singleton. by left.
    + destruct (String.eqb_spec k0 k1) as [<-|_]; rewrite !elem_of_cons; tauto.
Qed.

Lemma all_keys_obj_set k k0 v o :
  k ∈ all_keys (JObject (obj_set k0 v o)) ->
  k = k0 \/ k ∈ all_keys v \/ k ∈ all_keys (JObject o).
Proof.
  rewrite !all_keys_object. intros (k' & v' & Hin & Hk).
  apply obj_set_entries in Hin as [[= -> ->]|Hin]; [tauto|].
  right. right. by exists k', v'.
Qed.

Lemma all_keys_collect k l acc :
  k ∈ all_keys (JObject (fst (fold_left (collect convertField) l acc))) ->
  k ∈ all_keys (JObject (fst acc)) \/
  exists c, c ∈ l /\ (k = name c \/ k ∈ all_keys (convertField c)).
Proof.
  revert acc. induction l as [|c l IH]; intros acc; simpl; [auto|].
  intros H. destruct (IH _ H) as [H'|(c' & Hc' & H')].
  - apply all_keys_obj_set in H' as [?|[?|?]]; [right|right|by left];
      exists c; (split; [left|]); auto.
  - right. exists c'. split; [by right | done].
Qed.

Lemma all_keys_array_of_strings k l : k ∉ all_keys (JArray (map JString l)).
Proof. induction l; simpl; [apply not_elem_of_nil | done]. Qed.

Lemma all_keys_convertField k f :
  k ∈ all_keys (convertField f) -> k ∈ schema_keys \/ k ∈ property_names f.
Proof.
  induction f as [i n t r d ps it IHps IHit] using SchemaField_tree_ind.
  intros H. rewrite convertField_eq in H. cbv zeta in H. simpl in H.
  assert (Hfold : forall l,
    Forall (fun c => k ∈ all_keys (convertField c) ->
                     k ∈ schema_keys \/ k ∈ property_names c) l ->
    k ∈ all_keys (JObject (fst (fold_left (collect convertField) l ([], [])))) ->
    k ∈ schema_keys \/
    k ∈ flat_map (fun c => name c :: property_names c) l).
  { intros l Hl Hk. apply all_keys_collect in Hk as [Hk|(c & Hc & Hk)].
    - by apply elem_of_nil in Hk.
    - rewrite Forall_forall in Hl. specialize (Hl c Hc).
      destruct Hk as [->|Hk]; [|destruct (Hl Hk) as [?|?]; [by left|]];
        right; apply elem_of_flat_map; exists c; (split; [done|]);
        [left | by right]. }
  assert (Hreq : forall l, k ∈ flat_map all_keys (map JString l) -> False).
  { intros l. apply (all_keys_array_of_strings k l). }
  unfold schema_keys. simpl. rewrite ?app_nil_r.
  destruct (truthy d), t, ps as [l|], it as [g|]; simpl in H;
    try destruct (0 <? _)%nat; simpl in H;
    repeat (rewrite elem_of_cons in H || rewrite elem_of_app in H
            || rewrite elem_of_nil in H);
    rewrite !elem_of_cons.
  all: destruct_or! H; try (subst k; by auto 8); try done.
  all: rewrite ?app_nil_r; simpl.
  all: try (exfalso; by eapply Hreq).
  all: try (destruct (Hfold l IHps H) as [Hk|Hk];
            [unfold schema_keys in Hk; rewrite !elem_of_cons in Hk; by left
            | by right]).
  all: destruct (IHit H) as [Hk|Hk];
         [unfold schema_keys in Hk; rewrite !elem_of_cons in Hk; by left
         | by right].
Qed.

(** C10, as amended.  Two root sequences that differ in the [id]s of
    their nodes only compile to the same schema, and a key named ["id"]
    occurs in the compiled schema only as the name of a field: of a root
    field, or of a field below one under the [properties] of an object. *)
Theorem generateJsonSchema_ignores_ids (schema1 schema2 : list SchemaField) :
  map erase_ids schema1 = map erase_ids schema2 ->
  generateJsonSchema schema1 = generateJsonSchema schema2 /\
  ("id" ∈ all_keys (generateJsonSchema schema1) -> "id" ∈ schema_names schema1).
Proof.
  intros H. split.
  - by rewrite <- (generateJsonSchema_erase_ids schema1), H,
      generateJsonSchema_erase_ids.
  - clear H. unfold generateJsonSchema.
    rewrite (collect_required convertField schema1 ([], [])). simpl.
    intros Hk.
    assert (Hp : "id" ∈ all_keys (JObject
              (fst (fold_left (collect convertField) schema1 ([], []))))).
    { destruct (List.filter required schema1) as [|r rs]; simpl in Hk;
        repeat (rewrite elem_of_cons in Hk || rewrite elem_of_app in Hk
                || rewrite elem_of_nil in Hk);
        destruct_or! Hk; try done.
      exfalso. by apply (all_keys_array_of_strings "id" (name r :: map name rs)). }
    clear Hk. apply all_keys_collect in Hp as [Hp|(c & Hc & Hp)].
    + by apply elem_of_nil in Hp.
    + apply elem_of_flat_map. exists c. split; [done|].
      destruct Hp as [->|Hp]; [left|right].
      apply all_keys_convertField in Hp as [Hp|Hp]; [|done].
      unfold schema_keys in Hp. rewrite !elem_of_cons, elem_of_nil in Hp.
      by destruct_or! Hp.
Qed.

Lemma generateJsonSchema_ignores_ids_witness :
  generateJsonSchema ids_one = generateJsonSchema ids_two /\
  ("id" ∈ all_keys (generateJsonSchema ids_one) -> "id" ∈ schema_names ids_one).
Proof.
  apply (generateJsonSchema_ignores_ids ids_one ids_two). reflexivity.
Defined.

(** C10, as stated, fails for a root field the user names ["id"]: the
    name is a key of the top-level [properties] object. *)
Lemma generateJsonSchema_field_named_id :
  "id" ∈ all_keys (generateJsonSchema
    [ {| id := "field_1"; name := "id"; type := TString; required := false;
         description := None; properties := None; items := None |} ]).
Proof. simpl. rewrite !elem_of_cons. auto. Qed.

(** ** The editor *)

Lemma Forall_flat_map {A B} (P : B -> Prop) (g : A -> list B) (l : list A) :
  Forall P (flat_map g l) <-> Forall (fun x => Forall P (g x)) l.
Proof.
  induction l as [|x l IH]; simpl.
  - split; constructor.
  - rewrite Forall_app, Forall_cons, IH. tauto.
Qed.

Lemma Forall_nodes (P : SchemaField -> Prop) (f : SchemaField) :
  Forall P (nodes f) <->
  P f /\
  match properties f with
  | Some ps => Forall (fun c => Forall P (nodes c)) ps
  | None => True
  end /\
  match items f with
  | Some it => Forall P (nodes it)
  | None => True
  end.
Proof.
  destruct f as [i n t r d ps it]. simpl.
  rewrite Forall_cons, Forall_app.
  destruct ps as [l|], it as [g|]; rewrite ?Forall_flat_map, ?Forall_nil; tauto.
Qed.

(** The editor and the page handle every event: the indices they write
    at are indices they have just read. *)
Lemma FieldEditor_handle_total (e : Event) :
  forall f, is_Some (FieldEditor.handle f e).
Proof.
  induction e as [value|value now| | |value|now rnd|index e IH|e IH];
    intros f; simpl; try done.
  - by destruct (type f).
  - destruct (type f), (properties f) as [ps|] eqn:Hp; try done.
    destruct (ps !! index) as [p|] eqn:Hi; [|done].
    destruct (IH p) as [[p'| |] ->]; simpl; try done.
    unfold FieldEditor.updateProperty. rewrite Hp. simpl.
    by rewrite (array_set_lookup _ _ _ _ Hi).
  - destruct (type f), (items f) as [it|]; try done.
    by destruct (IH it) as [[it'| |] ->].
Qed.

Lemma Index_handle_total (schema : list SchemaField) (e : PageEvent) :
  is_Some (Index.handle schema e).
Proof.
  destruct e as [now rnd|index e]; simpl; [done|].
  destruct (schema !! index) as [field|] eqn:Hi; [|done].
  destruct (FieldEditor_handle_total e field) as [[field'| |] ->];
    simpl; try done.
  unfold Index.updateField. by rewrite (array_set_lookup _ _ _ _ Hi).
Qed.

Lemma Index_run_total (es : list PageEvent) :
  forall schema, is_Some (Index.run schema es).
Proof.
  induction es as [|e es IH]; intros schema; simpl; [done|].
  destruct (Index_handle_total schema e) as [schema' ->]. simpl. apply IH.
Qed.

Lemma default_items_shape now :
  Forall shape_kept (nodes (FieldEditor.default_items now)).
Proof. repeat constructor; discriminate. Qed.

Lemma new_field_shape now rnd : Forall shape_kept (nodes (new_field now rnd)).
Proof. repeat constructor; discriminate. Qed.

Lemma handle_keeps_shape (e : Event) :
  forall f,
    Forall shape_kept (nodes f) ->
    exists c,
      FieldEditor.handle f e = Some c /\
      match c with
      | OnUpdate f' => Forall shape_kept (nodes f')
      | _ => True
      end.
Proof.
  induction e as [value|value now| | |value|now rnd|index e IH|e IH];
    intros f Hf; simpl.
  - eexists; split; [done|]. apply Forall_nodes in Hf as (Hs & Hps & Hit).
    apply Forall_nodes. by destruct f.
  - eexists; split; [done|]. apply Forall_nodes in Hf as (Hs & Hps & Hit).
    apply Forall_nodes. unfold FieldEditor.onValueChange.
    destruct f as [i n t r d [ps|] [it|]], value; simpl in *;
      (split; [shape_kept_tac Hs|]); split; try done;
      apply default_items_shape.
  - eexists; split; [done|]. apply Forall_nodes in Hf as (Hs & Hps & Hit).
    apply Forall_nodes. by destruct f.
  - by eexists.
  - eexists; split; [done|]. apply Forall_nodes in Hf as (Hs & Hps & Hit).
    apply Forall_nodes. by destruct f.
  - destruct (type f) eqn:Ht; try by eexists.
    eexists; split; [done|]. apply Forall_nodes in Hf as (Hs & Hps & Hit).
    apply Forall_nodes. destruct f as [i n t r d ps it]; simpl in *.
    split; [shape_kept_tac Hs|]. split; [|done].
    apply Forall_app. split; [by destruct ps|].
    apply Forall_singleton, new_field_shape.
  - destruct (type f) eqn:Ht; try by eexists.
    destruct (properties f) as [ps|] eqn:Hp; [|by eexists].
    destruct (ps !! index) as [p|] eqn:Hi; [|by eexists].
    pose proof Hf as (Hs & Hps & Hit)%Forall_nodes. rewrite Hp in Hps.
    destruct (IH p) as (c & -> & Hc).
    { rewrite Forall_lookup in Hps. by eapply Hps. }
    simpl. destruct c as [p'| |].
    + unfold FieldEditor.updateProperty. rewrite Hp. simpl.
      rewrite (array_set_lookup _ _ _ _ Hi). simpl.
      eexists; split; [done|]. apply Forall_nodes.
      destruct f as [i n t r d ps0 it]; simpl in *.
      split; [shape_kept_tac Hs|]. split; [|done].
      by apply Forall_insert.
    + eexists; split; [done|]. apply Forall_nodes.
      unfold FieldEditor.deleteProperty. rewrite Hp, array_filter_delete.
      destruct f as [i n t r d ps0 it]; simpl in *.
      split; [shape_kept_tac Hs|]. split; [|done].
      by apply Forall_delete.
    + by eexists.
  - destruct (type f) eqn:Ht; try by eexists.
    destruct (items f) as [it|] eqn:Hi; [|by eexists].
    pose proof Hf as (Hs & Hps & Hit)%Forall_nodes. rewrite Hi in Hit.
    destruct (IH it Hit) as (c & -> & Hc).
    simpl. destruct c as [it'| |]; try by eexists.
    eexists; split; [done|]. apply Forall_nodes.
    destruct f as [i n t r d ps it0]; simpl in *.
    split; [shape_kept_tac Hs|]. done.
Qed.

Lemma page_handle_keeps_shape (schema : list SchemaField) (e : PageEvent) :
  every_node shape_kept schema ->
  exists schema',
    Index.handle schema e = Some schema' /\ every_node shape_kept schema'.
Proof.
  unfold every_node. rewrite Forall_flat_map. intros H.
  destruct e as [now rnd|index e]; simpl.
  - eexists; split; [done|]. rewrite Forall_flat_map.
    apply Forall_app. split; [done|]. apply Forall_singleton, new_field_shape.
  - destruct (schema !! index) as [field|] eqn:Hi.
    + destruct (handle_keeps_shape e field) as (c & -> & Hc).
      { rewrite Forall_lookup in H. by eapply H. }
      simpl. destruct c as [field'| |].
      * unfold Index.updateField. rewrite (array_set_lookup _ _ _ _ Hi).
        eexists; split; [done|]. rewrite Forall_flat_map.
        by apply Forall_insert.
      * eexists; split; [done|]. rewrite Forall_flat_map.
        unfold Index.deleteField. rewrite array_filter_delete.
        by apply Forall_delete.
      * eexists; split; [done|]. by rewrite Forall_flat_map.
    + eexists; split; [done|]. by rewrite Forall_flat_map.
Qed.

(** C3, as amended.  From a tree in which every object has [properties]
    and every array has [items], every sequence of events (adding a
    field, adding a property, editing, deleting, switching a type) is
    handled and leads to a tree in which, again, every node of type
    ["object"] has [properties] and every node of type ["array"] has
    [items]. *)
Theorem mutations_keep_shape (schema : list SchemaField) (es : list PageEvent) :
  every_node shape_kept schema ->
  exists schema',
    Index.run schema es = Some schema' /\ every_node shape_kept schema'.
Proof.
  revert schema. induction es as [|e es IH]; intros schema H; simpl.
  - by exists schema.
  - destruct (page_handle_keeps_shape schema e H) as (schema1 & -> & H1).
    simpl. by apply IH.
Qed.

Lemma mutations_keep_shape_witness :
  exists schema',
    Index.run Index.initial session = Some schema' /\
    every_node shape_kept schema'.
Proof.
  apply (mutations_keep_shape Index.initial session).
  repeat constructor; discriminate.
Defined.

(** C3, as stated, fails: a field switched to ["object"] and then to
    ["string"] keeps its [properties]. *)
Lemma type_switch_keeps_properties :
  exists schema',
    Index.run Index.initial
      [ InField 0 (TypeChange TObject 1700000000000);
        InField 0 (TypeChange TString 1700000001000) ] = Some schema' /\
    ~ every_node shape_exact schema'.
Proof.
  eexists. split; [reflexivity|].
  intros H. apply Forall_inv in H as [[H _] _].
  simpl in H. discriminate (H (ex_intro _ _ eq_refl)).
Qed.

(** C4.  Switching the type to ["object"] on a field without
    [properties] hands [onUpdate] the field with [type = "object"] and
    [properties = []]; switching it to ["array"] on a field without
    [items] hands [onUpdate] the field with [type = "array"] and, as
    [items], a field with the id ["items_"] followed by the clock reading,
    the name ["item"], the type ["string"] and [required = false].  Every
    other member is the one of the old field. *)
Theorem type_switch_defaults (f : SchemaField) (now : N) :
  (properties f = None ->
   FieldEditor.handle f (TypeChange TObject now)
   = Some (OnUpdate
       {| id := id f; name := name f; type := TObject;
          required := required f; description := description f;
          properties := Some [];
          items := items f |})) /\
  (items f = None ->
   FieldEditor.handle f (TypeChange TArray now)
   = Some (OnUpdate
       {| id := id f; name := name f; type := TArray;
          required := required f; description := description f;
          properties := properties f;
          items := Some
            {| id := "items_" +:+ pretty now; name := "item";
               type := TString; required := false; description := None;
               properties := None; items := None |} |})).
Proof.
  split; intros H; simpl; unfold FieldEditor.onValueChange; rewrite H.
  - by destruct f.
  - by destruct f as [i n t r d [ps|] it].
Qed.

Lemma type_switch_defaults_witness :
  FieldEditor.handle (new_field 1700000000000 "k3j9x0a1b")
    (TypeChange TObject 1700000001000)
  = Some (OnUpdate
      {| id := "field_1700000000000_k3j9x0a1b"; name := "newField";
         type := TObject; required := false; description := None;
         properties := Some []; items := None |}) /\
  FieldEditor.handle (new_field 1700000000000 "k3j9x0a1b")
    (TypeChange TArray 1700000001000)
  = Some (OnUpdate
      {| id := "field_1700000000000_k3j9x0a1b"; name := "newField";
         type := TArray; required := false; description := None;
         properties := None;
         items := Some
           {| id := "items_1700000001000"; name := "item";
              type := TString; required := false; description := None;
              properties := None; items := None |} |}).
Proof.
  split.
  - exact (proj1 (type_switch_defaults (new_field 1700000000000 "k3j9x0a1b")
                    1700000001000) eq_refl).
  - exact (proj2 (type_switch_defaults (new_field 1700000000000 "k3j9x0a1b")
                    1700000001000) eq_refl).
Defined.

(** C5.  A field of type ["object"] with a non-empty [properties] that
    is switched to another type and then back to ["object"] has the
    [properties] it had before. *)
Theorem type_switch_round_trip
    (f : SchemaField) (ps : list SchemaField) (t : FieldType) (now1 now2 : N) :
  type f = TObject ->
  properties f = Some ps ->
  ps <> [] ->
  t <> TObject ->
  exists f1 f2,
    FieldEditor.handle f (TypeChange t now1) = Some (OnUpdate f1) /\
    type f1 = t /\
    FieldEditor.handle f1 (TypeChange TObject now2) = Some (OnUpdate f2) /\
    type f2 = TObject /\
    properties f2 = Some ps.
Proof.
  intros Ht Hps _ Hne. do 2 eexists. split; [reflexivity|].
  destruct f as [i n ty r d props it]. simpl in *. subst.
  destruct t, it; try congruence; repeat split; reflexivity.
Qed.

Lemma type_switch_round_trip_witness :
  exists f1 f2,
    FieldEditor.handle object_with_required (TypeChange TArray 1700000001000)
    = Some (OnUpdate f1) /\
    type f1 = TArray /\
    FieldEditor.handle f1 (TypeChange TObject 1700000002000)
    = Some (OnUpdate f2) /\
    type f2 = TObject /\
    properties f2 = properties object_with_required.
Proof.
  apply (type_switch_round_trip object_with_required _ TArray
           1700000001000 1700000002000 eq_refl eq_refl); discriminate.
Defined.

(** ** Deleting *)

Lemma delete_removed_at {A} (index : nat) (l : list A) :
  index < length l -> removed_at index l (delete index l).
Proof.
  intros H. split; [|split].
  - by apply length_delete, lookup_lt_is_Some.
  - intros j Hj. by apply list_lookup_delete_lt.
  - intros j Hj. by apply list_lookup_delete_ge.
Qed.

(** C7.  For a sequence of [n] siblings and an index below [n],
    [deleteField] on the root sequence and [deleteProperty] on the
    [properties] of a field give a sequence of [n - 1] elements that has
    the original elements before the index at their positions and the
    original elements after it one position lower. *)
Theorem delete_is_index_stable (siblings : list SchemaField) (index : nat) :
  index < length siblings ->
  removed_at index siblings (Index.deleteField siblings index) /\
  forall field,
    properties field = Some siblings ->
    exists rest,
      properties (FieldEditor.deleteProperty field index) = Some rest /\
      removed_at index siblings rest.
Proof.
  intros H. split.
  - unfold Index.deleteField. rewrite array_filter_delete.
    by apply delete_removed_at.
  - intros field Hps. exists (delete index siblings). split.
    + unfold FieldEditor.deleteProperty. rewrite Hps, array_filter_delete.
      by destruct field.
    + by apply delete_removed_at.
Qed.

Lemma delete_is_index_stable_witness :
  removed_at 1 (Index.addField Index.initial 1700000000000 "k3j9x0a1b")
    (Index.deleteField
       (Index.addField Index.initial 1700000000000 "k3j9x0a1b") 1) /\
  forall field,
    properties field
    = Some (Index.addField Index.initial 1700000000000 "k3j9x0a1b") ->
    exists rest,
      properties (FieldEditor.deleteProperty field 1) = Some rest /\
      removed_at 1 (Index.addField Index.initial 1700000000000 "k3j9x0a1b") rest.
Proof.
  apply (delete_is_index_stable
           (Index.addField Index.initial 1700000000000 "k3j9x0a1b") 1).
  simpl. lia.
Defined.

Lemma handle_items_delete (path : list (option nat)) :
  forall field,
    FieldEditor.handle field (at_path path (InItems DeleteClick)) = Some Idle.
Proof.
  induction path as [|[index|] path IH]; intros field; simpl.
  - by destruct (type field), (items field).
  - destruct (type field), (properties field) as [ps|]; try done.
    destruct (ps !! index); [|done]. by rewrite IH.
  - destruct (type field), (items field) as [it|]; try done.
    by rewrite IH.
Qed.

(** C8.  The delete button of the editor shown for the [items] of an
    array, wherever that array is in the tree, leaves the [schema] state
    as it is. *)
Theorem delete_of_array_item_is_noop
    (schema : list SchemaField) (index : nat) (path : list (option nat)) :
  Index.handle schema (InField index (at_path path (InItems DeleteClick)))
  = Some schema.
Proof.
  simpl. destruct (schema !! index); [|done].
  by rewrite handle_items_delete.
Qed.

(** On an array, an edit inside the item editor changes the state, its
    delete button does not. *)
Example item_edit_and_item_delete :
  Index.handle ids_one (InField 0 (InItems (NameChange "entry"))) <> Some ids_one /\
  Index.handle ids_one (InField 0 (InItems DeleteClick)) = Some ids_one.
Proof. split; [discriminate | reflexivity]. Qed.

(** ** Further properties: what the generator reads *)

Lemma collect_ext (l1 l2 : list SchemaField) :
  Forall2 same_schema l1 l2 ->
  forall acc,
    fold_left (collect convertField) l1 acc
    = fold_left (collect convertField) l2 acc.
Proof.
  induction 1 as [|a b l1 l2 (Hn & Hr & Hc) _ IH]; intros acc; [done|].
  simpl. rewrite IH. f_equal. unfold collect. by rewrite Hn, Hr, Hc.
Qed.

Lemma convertField_congr (f g : SchemaField) :
  type f = type g ->
  description f = description g ->
  (type f = TObject ->
   match properties f, properties g with
   | Some l1, Some l2 => Forall2 same_schema l1 l2
   | None, None => True
   | _, _ => False
   end) ->
  (type f = TArray ->
   match items f, items g with
   | Some a, Some b => convertField a = convertField b
   | None, None => True
   | _, _ => False
   end) ->
  convertField f = convertField g.
Proof.
  intros Ht Hd Hps Hit. rewrite (convertField_eq f), (convertField_eq g).
  rewrite <- Ht, <- Hd. cbv zeta.
  destruct (type f) eqn:E; try done.
  - specialize (Hps eq_refl).
    destruct (properties f) as [l1|], (properties g) as [l2|]; try done.
    by rewrite (collect_ext l1 l2 Hps).
  - specialize (Hit eq_refl).
    destruct (items f) as [a|], (items g) as [b|]; try done.
    by rewrite Hit.
Qed.

Lemma same_schema_refl (l : list SchemaField) : Forall2 same_schema l l.
Proof. apply Forall_Forall2_diag, Forall_forall. by intros c _. Qed.

Lemma generateJsonSchema_ext (l1 l2 : list SchemaField) :
  Forall2 same_schema l1 l2 -> generateJsonSchema l1 = generateJsonSchema l2.
Proof.
  intros H. unfold generateJsonSchema. by rewrite (collect_ext l1 l2 H).
Qed.

Lemma label_edit_in_item (e0 : Event) (path : list (option nat)) :
  label_edit e0 ->
  forall f,
    exists c,
      FieldEditor.handle f (at_path path (InItems e0)) = Some c /\
      match c with
      | OnUpdate f' => same_schema f' f
      | OnDelete => False
      | Idle => True
      end.
Proof.
  intros He. induction path as [|[index|] path IH]; intros f; simpl.
  - destruct (type f) eqn:Ht; try by eexists.
    destruct (items f) as [it|] eqn:Hi; [|by eexists].
    assert (exists it', FieldEditor.handle it e0 = Some (OnUpdate it') /\
                        convertField it' = convertField it) as (it' & -> & Hc).
    { destruct e0; try done; eexists; (split; [reflexivity|]); by destruct it. }
    simpl. eexists; split; [done|]. repeat split; try by destruct f.
    apply convertField_congr; try by destruct f.
    + intros _. replace (properties _) with (properties f) by by destruct f.
      destruct (properties f); [apply same_schema_refl | done].
    + intros _. replace (items _) with (Some it') by by destruct f.
      by rewrite Hi.
  - destruct (type f) eqn:Ht; try by eexists.
    destruct (properties f) as [ps|] eqn:Hp; [|by eexists].
    destruct (ps !! index) as [p|] eqn:Hi; [|by eexists].
    destruct (IH p) as (c & -> & Hc). simpl.
    destruct c as [p'| |]; [|done|by eexists].
    unfold FieldEditor.updateProperty. rewrite Hp. simpl.
    rewrite (array_set_lookup _ _ _ _ Hi). simpl.
    eexists; split; [done|]. repeat split; try by destruct f.
    apply convertField_congr; try by destruct f.
    + intros _. replace (properties _) with (Some (<[index:=p']> ps))
        by by destruct f.
      rewrite Hp. rewrite <- (list_insert_id ps index p Hi) at 2.
      apply Forall2_insert; [apply same_schema_refl | done].
    + replace (type _) with (type f) by by destruct f.
      rewrite Ht. done.
  - destruct (type f) eqn:Ht; try by eexists.
    destruct (items f) as [it|] eqn:Hi; [|by eexists].
    destruct (IH it) as (c & -> & Hc). simpl.
    destruct c as [it'| |]; [|done|by eexists].
    eexists; split; [done|]. repeat split; try by destruct f.
    apply convertField_congr; try by destruct f.
    + replace (type _) with (type f) by by destruct f.
      rewrite Ht. done.
    + intros _. replace (items _) with (Some it') by by destruct f.
      rewrite Hi. apply Hc.
Qed.

(** X1.  Renaming the item of an array, or clicking its [required]
    badge, is handled and leaves the generated schema as it is, at
    whatever depth the array is: the generator reads neither the name nor
    the [required] flag of an item. *)
Theorem item_label_is_not_compiled
    (schema : list SchemaField) (index : nat) (path : list (option nat))
    (e0 : Event) :
  label_edit e0 ->
  exists schema',
    Index.handle schema (InField index (at_path path (InItems e0)))
    = Some schema' /\
    generateJsonSchema schema' = generateJsonSchema schema.
Proof.
  intros He. simpl. destruct (schema !! index) as [f|] eqn:Hi; [|by eexists].
  destruct (label_edit_in_item e0 path He f) as (c & -> & Hc). simpl.
  destruct c as [f'| |]; [|done|by eexists].
  unfold Index.updateField. rewrite (array_set_lookup _ _ _ _ Hi).
  eexists; split; [done|]. apply generateJsonSchema_ext.
  rewrite <- (list_insert_id schema index f Hi) at 2.
  apply Forall2_insert; [apply same_schema_refl | done].
Qed.

Lemma item_label_is_not_compiled_witness :
  exists schema',
    Index.handle ids_one (InField 0 (at_path [] (InItems RequiredClick)))
    = Some schema' /\
    generateJsonSchema schema' = generateJsonSchema ids_one.
Proof. apply (item_label_is_not_compiled ids_one 0 [] RequiredClick). exact I. Defined.

Lemma convertField_visible f : convertField (visible f) = convertField f.
Proof.
  induction f as [i n t r d ps it IHps IHit] using SchemaField_tree_ind.
  apply convertField_congr; simpl; try done.
  - intros ->. destruct ps as [l|]; [|done].
    apply Forall2_fmap_l. apply Forall_Forall2_diag.
    eapply Forall_impl; [exact IHps|]. intros c Hc. simpl.
    by destruct c.
  - intros ->. by destruct it as [g|].
Qed.

Lemma visible_shape_exact f :
  Forall shape_kept (nodes f) -> Forall shape_exact (nodes (visible f)).
Proof.
  induction f as [i n t r d ps it IHps IHit] using SchemaField_tree_ind.
  intros (Hs & Hps & Hit)%Forall_nodes. apply Forall_nodes. simpl in *.
  destruct Hs as [Hs1 Hs2]. simpl in *. split; [|split].
  - split; simpl; split.
    + destruct t, ps; try done; by intros [? ?].
    + intros ->. destruct ps; [by eexists | by destruct (Hs1 eq_refl)].
    + destruct t, it; try done; by intros [? ?].
    + intros ->. destruct it; [by eexists | by destruct (Hs2 eq_refl)].
  - destruct t, ps as [l|]; try done. apply Forall_fmap.
    rewrite Forall_forall in IHps, Hps. apply Forall_forall.
    intros c Hc. simpl. by apply IHps, Hps.
  - destruct t, it as [g|]; try done. by apply IHit.
Qed.

(** X2.  The generated schema is the one of the tree without what its
    fields keep from earlier types (the [properties] of a field that is no
    longer an object, the [items] of a field that is no longer an array);
    and when every object has [properties] and every array has [items],
    that smaller tree has [properties] exactly on its objects and [items]
    exactly on its arrays. *)
Theorem generateJsonSchema_visible (schema : list SchemaField) :
  generateJsonSchema (map visible schema) = generateJsonSchema schema /\
  (every_node shape_kept schema ->
   every_node shape_exact (map visible schema)).
Proof.
  split.
  - apply generateJsonSchema_ext, Forall2_fmap_l, Forall_Forall2_diag.
    apply Forall_forall. intros c _. simpl.
    repeat split; try by destruct c. apply convertField_visible.
  - unfold every_node. rewrite !Forall_flat_map, Forall_fmap.
    intros H. eapply Forall_impl; [exact H|].
    intros c. apply visible_shape_exact.
Qed.

Lemma generateJsonSchema_visible_witness :
  generateJsonSchema (map visible [string_with_leftovers])
  = generateJsonSchema [string_with_leftovers] /\
  every_node shape_exact (map visible [string_with_leftovers]).
Proof.
  split.
  - exact (proj1 (generateJsonSchema_visible [string_with_leftovers])).
  - apply (proj2 (generateJsonSchema_visible [string_with_leftovers])).
    repeat constructor; discriminate.
Defined.

(** ** Further properties: the editor *)

(** X3.  Clicking the [required] badge twice hands back the field as it
    was. *)
Theorem required_click_twice (f : SchemaField) :
  exists f1,
    FieldEditor.handle f RequiredClick = Some (OnUpdate f1) /\
    required f1 = negb (required f) /\
    FieldEditor.handle f1 RequiredClick = Some (OnUpdate f).
Proof.
  eexists. split; [reflexivity|]. split; [by destruct f|].
  destruct f as [i n t r d ps it]. simpl. unfold FieldEditor.updateField, spread.
  simpl. by rewrite negb_involutive.
Qed.

(** X4.  Choosing the same type a second time changes nothing more: the
    field after two switches to a type is the field after the first, and
    the default item made by the first switch is kept, with its id. *)
Theorem type_switch_idempotent (f : SchemaField) (t : FieldType) (now1 now2 : N) :
  FieldEditor.onValueChange (FieldEditor.onValueChange f t now1) t now2
  = FieldEditor.onValueChange f t now1.
Proof. by destruct f as [i n ty r d [ps|] [it|]], t. Qed.

(** X5.  A field of type ["array"] that is switched to another type and
    then back to ["array"] has the [items] it had before, not a new
    default item. *)
Theorem type_switch_keeps_items
    (f it : SchemaField) (t : FieldType) (now1 now2 : N) :
  type f = TArray ->
  items f = Some it ->
  exists f1 f2,
    FieldEditor.handle f (TypeChange t now1) = Some (OnUpdate f1) /\
    type f1 = t /\
    FieldEditor.handle f1 (TypeChange TArray now2) = Some (OnUpdate f2) /\
    type f2 = TArray /\
    items f2 = Some it.
Proof.
  intros Ht Hit. do 2 eexists. split; [reflexivity|].
  destruct f as [i n ty r d ps its]. simpl in *. subst.
  destruct t, ps; repeat split; reflexivity.
Qed.

Lemma type_switch_keeps_items_witness :
  exists f1 f2,
    FieldEditor.handle tags_array (TypeChange TObject 1700000001000)
    = Some (OnUpdate f1) /\
    type f1 = TObject /\
    FieldEditor.handle f1 (TypeChange TArray 1700000002000)
    = Some (OnUpdate f2) /\
    type f2 = TArray /\
    items f2 = Some (FieldEditor.default_items 1700000000000).
Proof.
  exact (type_switch_keeps_items tags_array _ TObject
           1700000001000 1700000002000 eq_refl eq_refl).
Defined.

Lemma handle_id (e : Event) (f f' : SchemaField) :
  FieldEditor.handle f e = Some (OnUpdate f') -> id f' = id f.
Proof.
  destruct e as [value|value now| | |value|now rnd|index e|e]; simpl.
  - intros [= <-]. by destruct f.
  - intros [= <-]. by destruct f as [i n t r d [ps|] [it|]], value.
  - intros [= <-]. by destruct f.
  - done.
  - intros [= <-]. by destruct f.
  - destruct (type f); intros [= <-]. by destruct f.
  - destruct (type f), (properties f) as [ps|] eqn:Hp; try done.
    destruct (ps !! index) as [p|]; [|done].
    destruct (FieldEditor.handle p e) as [[p'| |]|]; simpl; try done.
    + unfold FieldEditor.updateProperty.
      destruct (array_set _ _ _); simpl; [|done].
      intros [= <-]. by destruct f.
    + intros [= <-]. by destruct f.
  - destruct (type f), (items f) as [it|]; try done.
    destruct (FieldEditor.handle it e) as [[it'| |]|]; simpl; try done.
    intros [= <-]. by destruct f.
Qed.

Lemma handle_OnDelete (e : Event) (f : SchemaField) :
  FieldEditor.handle f e = Some OnDelete -> e = DeleteClick.
Proof.
  destruct e as [value|value now| | |value|now rnd|index e|e]; simpl; try done.
  - by destruct (type f).
  - destruct (type f), (properties f) as [ps|]; try done.
    destruct (ps !! index) as [p|]; [|done].
    destruct (FieldEditor.handle p e) as [[p'| |]|]; simpl; try done.
    by destruct (FieldEditor.updateProperty _ _ _).
  - destruct (type f), (items f) as [it|]; try done.
    by destruct (FieldEditor.handle it e) as [[it'| |]|].
Qed.

Lemma insert_ids (l : list SchemaField) (i : nat) (f f' : SchemaField) :
  l !! i = Some f -> id f' = id f -> map id (<[i:=f']> l) = map id l.
Proof.
  revert i. induction l as [|x l IH]; intros [|i] Hi Hid; simpl in *; try done.
  - injection Hi as ->. by rewrite Hid.
  - f_equal. by apply IH.
Qed.

(** X6.  An event in the editor of the root field at [index], other than
    a click on that field's own delete button, is handled and changes at
    most that field: the sequence keeps its length, every other root
    field stays where and as it is, and the ids, which are the keys of
    the rendered editors, stay the same in the same order. *)
Theorem root_edit_is_local
    (schema : list SchemaField) (index : nat) (e : Event) :
  e <> DeleteClick ->
  exists schema',
    Index.handle schema (InField index e) = Some schema' /\
    length schema' = length schema /\
    (forall j, j <> index -> schema' !! j = schema !! j) /\
    map id schema' = map id schema.
Proof.
  intros He. simpl. destruct (schema !! index) as [f|] eqn:Hi; [|by eexists].
  destruct (FieldEditor_handle_total e f) as [c Hc]. rewrite Hc. simpl.
  destruct c as [f'| |].
  - unfold Index.updateField. rewrite (array_set_lookup _ _ _ _ Hi).
    eexists; split; [done|]. split; [apply length_insert|]. split.
    + intros j Hj. by apply list_lookup_insert_ne.
    + apply (insert_ids _ _ f); [done|]. by apply (handle_id e).
  - by apply handle_OnDelete in Hc.
  - by eexists.
Qed.

Lemma root_edit_is_local_witness :
  exists schema',
    Index.handle Index.initial (InField 1 (TypeChange TArray 1700000000000))
    = Some schema' /\
    length schema' = length Index.initial /\
    (forall j, j <> 1 -> schema' !! j = Index.initial !! j) /\
    map id schema' = map id Index.initial.
Proof.
  apply (root_edit_is_local Index.initial 1 (TypeChange TArray 1700000000000)).
  discriminate.
Defined.

(** X7.  An event in the editor of the property at [index] of a field,
    other than a click on that property's own delete button, never makes
    the field call [onDelete]; when it makes the field call [onUpdate],
    the field handed over differs from the old one in [properties] only,
    and there at most at [index]: same length, same siblings, same ids in
    the same order. *)
Theorem property_edit_is_local (f : SchemaField) (index : nat) (e : Event) :
  e <> DeleteClick ->
  exists c,
    FieldEditor.handle f (InProperty index e) = Some c /\
    match c with
    | OnUpdate f' =>
        id f' = id f /\ name f' = name f /\ type f' = type f /\
        required f' = required f /\ description f' = description f /\
        items f' = items f /\
        exists ps ps',
          properties f = Some ps /\ properties f' = Some ps' /\
          length ps' = length ps /\
          (forall j, j <> index -> ps' !! j = ps !! j) /\
          map id ps' = map id ps
    | OnDelete => False
    | Idle => True
    end.
Proof.
  intros He. simpl.
  destruct (type f) eqn:Ht, (properties f) as [ps|] eqn:Hp; try by eexists.
  destruct (ps !! index) as [p|] eqn:Hi; [|by eexists].
  destruct (FieldEditor_handle_total e p) as [c Hc]. rewrite Hc. simpl.
  destruct c as [p'| |].
  - unfold FieldEditor.updateProperty. rewrite Hp. simpl.
    rewrite (array_set_lookup _ _ _ _ Hi). simpl.
    eexists; split; [done|].
    repeat split; try (destruct f; simpl in *; congruence).
    exists ps, (<[index:=p']> ps). split; [done|].
    split; [by destruct f|]. split; [apply length_insert|]. split.
    + intros j Hj. by apply list_lookup_insert_ne.
    + apply (insert_ids _ _ p); [done|]. by apply (handle_id e).
  - by apply handle_OnDelete in Hc.
  - by eexists.
Qed.

Lemma property_edit_is_local_witness :
  exists c,
    FieldEditor.handle object_with_required (InProperty 1 (NameChange "memo"))
    = Some c /\
    match c with
    | OnUpdate f' =>
        id f' = "field_1" /\ name f' = "user" /\ type f' = TObject /\
        required f' = false /\ description f' = None /\
        items f' = None /\
        exists ps ps',
          properties object_with_required = Some ps /\
          properties f' = Some ps' /\
          length ps' = length ps /\
          (forall j, j <> 1 -> ps' !! j = ps !! j) /\
          map id ps' = map id ps
    | OnDelete => False
    | Idle => True
    end.
Proof.
  apply (property_edit_is_local object_with_required 1 (NameChange "memo")).
  discriminate.
Defined.

(** X8.  Every page event is handled, and the number of root fields, the
    one the badge shows, grows by one on "Add Field", drops by one on the
    delete button of an existing root field, and stays as it is on every
    other event, those inside nested editors included. *)
Theorem field_count (schema : list SchemaField) (e : PageEvent) :
  exists schema',
    Index.handle schema e = Some schema' /\
    length schema'
    = match e with
      | AddFieldClick _ _ => S (length schema)
      | InField index DeleteClick =>
          if decide (index < length schema)
          then length schema - 1 else length schema
      | InField _ _ => length schema
      end.
Proof.
  destruct e as [now rnd|index e].
  - eexists; split; [done|]. unfold Index.addField.
    rewrite length_app. simpl. lia.
  - assert (e <> DeleteClick ->
            exists schema',
              Index.handle schema (InField index e) = Some schema' /\
              length schema' = length schema) as Hother.
    { intros He. simpl.
      destruct (schema !! index) as [f|] eqn:Hi; [|by eexists].
      destruct (FieldEditor_handle_total e f) as [c Hc]. rewrite Hc. simpl.
      destruct c as [f'| |]; [| by apply handle_OnDelete in Hc | by eexists].
      unfold Index.updateField. rewrite (array_set_lookup _ _ _ _ Hi).
      eexists; split; [done|]. apply length_insert. }
    destruct e; try (apply Hother; discriminate). clear Hother.
    simpl. destruct (schema !! index) as [f|] eqn:Hi; simpl.
    + eexists; split; [done|]. unfold Index.deleteField.
      rewrite array_filter_delete. apply lookup_lt_Some in Hi as Hlt.
      rewrite decide_True by done. apply length_delete. by eexists.
    + eexists; split; [done|]. apply lookup_ge_None in Hi.
      rewrite decide_False by lia. done.
Qed.

(** ** Further properties: adding, and what gets compiled *)

Lemma generateJsonSchema_properties (schema : list SchemaField) :
  member "properties" (generateJsonSchema schema)
  = Some (JObject (fst (fold_left (collect convertField) schema ([], [])))).
Proof.
  unfold generateJsonSchema. simpl.
  by destruct (length _ =? 0)%nat.
Qed.

Lemma generateJsonSchema_required (schema : list SchemaField) :
  member "required" (generateJsonSchema schema)
  = match List.filter required schema with
    | [] => None
    | rs => Some (JArray (map JString (map name rs)))
    end.
Proof.
  unfold generateJsonSchema.
  rewrite (collect_required convertField schema ([], [])). simpl.
  by destruct (List.filter required schema).
Qed.

Lemma convertField_properties (f : SchemaField) (ps : list SchemaField) :
  type f = TObject ->
  properties f = Some ps ->
  member "properties" (convertField f)
  = Some (JObject (fst (fold_left (collect convertField) ps ([], [])))).
Proof.
  intros Ht Hps. rewrite convertField_eq, Ht, Hps. cbv zeta.
  by destruct (truthy (description f)), (0 <? length _)%nat.
Qed.

Lemma convertField_required (f : SchemaField) (ps : list SchemaField) :
  type f = TObject ->
  properties f = Some ps ->
  member "required" (convertField f)
  = match List.filter required ps with
    | [] => None
    | rs => Some (JArray (map JString (map name rs)))
    end.
Proof.
  intros Ht Hps. rewrite convertField_eq, Ht, Hps. cbv zeta.
  rewrite (collect_required convertField ps ([], [])). simpl.
  by destruct (truthy (description f)), (List.filter required ps).
Qed.

Lemma collect_new_field (l : list SchemaField) (now : N) (rnd : string) :
  let props := fst (fold_left (collect convertField) l ([], [])) in
  let props' :=
    fst (fold_left (collect convertField) (l ++ [new_field now rnd]) ([], [])) in
  obj_get "newField" props' = Some (JObject [("type", JString "string")]) /\
  (forall k, k <> "newField" -> obj_get k props' = obj_get k props) /\
  List.filter required (l ++ [new_field now rnd]) = List.filter required l.
Proof.
  simpl. rewrite fold_left_app. simpl. split; [|split].
  - apply obj_get_set_eq. discriminate.
  - intros k Hk. apply obj_get_set_ne. congruence.
  - rewrite List.filter_app. simpl. apply app_nil_r.
Qed.

(** X9.  After "Add Field" the generated schema binds ["newField"] to
    the schema of a string, binds every other name as before, and has the
    [required] it had: a root field that was already named ["newField"]
    is no longer the one compiled under that name. *)
Theorem addField_compiled (schema : list SchemaField) (now : N) (rnd : string) :
  exists props props',
    member "properties" (generateJsonSchema schema) = Some (JObject props) /\
    member "properties" (generateJsonSchema (Index.addField schema now rnd))
    = Some (JObject props') /\
    obj_get "newField" props' = Some (JObject [("type", JString "string")]) /\
    (forall k, k <> "newField" -> obj_get k props' = obj_get k props) /\
    member "required" (generateJsonSchema (Index.addField schema now rnd))
    = member "required" (generateJsonSchema schema).
Proof.
  destruct (collect_new_field schema now rnd) as (Hnew & Hold & Hreq).
  do 2 eexists. split; [apply generateJsonSchema_properties|].
  split; [apply generateJsonSchema_properties|].
  split; [exact Hnew|]. split; [exact Hold|].
  rewrite !generateJsonSchema_required. unfold Index.addField. by rewrite Hreq.
Qed.

(** X10.  "Add Property" on an object appends a string field named
    ["newField"] to its [properties]; in the schema compiled from the
    object, ["newField"] is then bound to the schema of a string, every
    other name is bound as before, and [required] is what it was. *)
Theorem addProperty_compiled
    (f : SchemaField) (ps : list SchemaField) (now : N) (rnd : string) :
  type f = TObject ->
  properties f = Some ps ->
  exists f' props props',
    FieldEditor.handle f (AddPropertyClick now rnd) = Some (OnUpdate f') /\
    type f' = TObject /\
    properties f' = Some (ps ++ [new_field now rnd])%list /\
    member "properties" (convertField f) = Some (JObject props) /\
    member "properties" (convertField f') = Some (JObject props') /\
    obj_get "newField" props' = Some (JObject [("type", JString "string")]) /\
    (forall k, k <> "newField" -> obj_get k props' = obj_get k props) /\
    member "required" (convertField f') = member "required" (convertField f).
Proof.
  intros Ht Hps.
  destruct (collect_new_field ps now rnd) as (Hnew & Hold & Hreq).
  assert (Ht' : type (FieldEditor.addProperty f now rnd) = TObject)
    by (by destruct f).
  assert (Hps' : properties (FieldEditor.addProperty f now rnd)
                 = Some (ps ++ [new_field now rnd])%list).
  { destruct f; simpl in *. by rewrite Hps. }
  exists (FieldEditor.addProperty f now rnd). do 2 eexists.
  split; [simpl; by rewrite Ht|]. split; [done|]. split; [done|].
  split; [by apply convertField_properties|].
  split; [by apply convertField_properties|].
  split; [exact Hnew|]. split; [exact Hold|].
  rewrite (convertField_required _ _ Ht' Hps'),
    (convertField_required _ _ Ht Hps). by rewrite Hreq.
Qed.

Lemma addProperty_compiled_witness :
  exists f' props props',
    FieldEditor.handle object_with_required
      (AddPropertyClick 1700000000000 "k3j9x0a1b") = Some (OnUpdate f') /\
    type f' = TObject /\
    properties f'
    = Some (default [] (properties object_with_required)
            ++ [new_field 1700000000000 "k3j9x0a1b"])%list /\
    member "properties" (convertField object_with_required)
    = Some (JObject props) /\
    member "properties" (convertField f') = Some (JObject props') /\
    obj_get "newField" props' = Some (JObject [("type", JString "string")]) /\
    (forall k, k <> "newField" -> obj_get k props' = obj_get k props) /\
    member "required" (convertField f')
    = member "required" (convertField object_with_required).
Proof.
  exact (addProperty_compiled object_with_required _
           1700000000000 "k3j9x0a1b" eq_refl eq_refl).
Defined.

Lemma convertField_description (f : SchemaField) :
  member "description" (convertField f)
  = if truthy (description f)
    then Some (JString (default "" (description f)))
    else None.
Proof.
  rewrite convertField_eq. cbv zeta.
  destruct (truthy (description f)), (type f), (properties f) as [ps|],
    (items f) as [it|]; simpl; try done;
    by destruct (0 <? length _)%nat.
Qed.

(** X11.  After the description box is edited to [value], the box shows
    [value], and the schema compiled from the field has [description]
    equal to [value], or no [description] key when [value] is empty;
    nothing else of the field changes. *)
Theorem description_change (f : SchemaField) (value : string) :
  exists f',
    FieldEditor.handle f (DescriptionChange value) = Some (OnUpdate f') /\
    default "" (description f') = value /\
    member "description" (convertField f')
    = (if String.eqb value "" then None else Some (JString value)) /\
    f' = {| id := id f; name := name f; type := type f;
            required := required f; description := Some value;
            properties := properties f; items := items f |}.
Proof.
  eexists. split; [reflexivity|]. split; [by destruct f|].
  split; [|by destruct f].
  rewrite convertField_description.
  replace (description _) with (Some value) by by destruct f.
  simpl. by destruct (String.eqb value "").
Qed.

Lemma all_keys_obj_get k0 v o k :
  obj_get k0 o = Some v -> (k = k0 \/ k ∈ all_keys v) -> k ∈ all_keys (JObject o).
Proof.
  induction o as [|[k1 v1] o IH]; simpl; [done|].
  destruct (String.eqb k0 k1) eqn:E.
  - apply String.eqb_eq in E. subst k1. intros [= ->].
    rewrite elem_of_cons, elem_of_app. tauto.
  - intros Hg Hk. rewrite elem_of_cons, elem_of_app. right. right.
    by apply IH.
Qed.

(** X12.  Every key that occurs in the generated schema, at any depth,
    is one of [type], [description], [properties], [required], [items],
    or the name of a field; and the name of every root field, when it is
    not [__proto__], does occur as a key. *)
Theorem generateJsonSchema_keys (schema : list SchemaField) (k : string) :
  (k ∈ all_keys (generateJsonSchema schema) ->
   k ∈ schema_keys \/ k ∈ schema_names schema) /\
  (k ∈ map name schema -> k <> "__proto__" ->
   k ∈ all_keys (generateJsonSchema schema)).
Proof.
  split.
  - unfold generateJsonSchema.
    rewrite (collect_required convertField schema ([], [])). simpl.
    intros Hk.
    assert (Hp : k ∈ schema_keys \/
                 k ∈ all_keys (JObject
                   (fst (fold_left (collect convertField) schema ([], []))))).
    { unfold schema_keys.
      destruct (List.filter required schema) as [|r rs]; simpl in Hk;
        repeat (rewrite elem_of_cons in Hk || rewrite elem_of_app in Hk
                || rewrite elem_of_nil in Hk);
        destruct_or! Hk; try done; try (by right);
        try (left; subst k; rewrite !elem_of_cons; by auto 8).
      exfalso. by apply (all_keys_array_of_strings k (name r :: map name rs)). }
    destruct Hp as [Hp|Hp]; [by left|].
    apply all_keys_collect in Hp as [Hp|(c & Hc & Hp)].
    + by apply elem_of_nil in Hp.
    + destruct Hp as [->|Hp].
      * right. apply elem_of_flat_map. exists c. split; [done | left].
      * apply all_keys_convertField in Hp as [Hp|Hp]; [by left|].
        right. apply elem_of_flat_map. exists c. split; [done | by right].
  - intros Hk Hproto.
    assert (Hin : k ∈ obj_keys
              (fst (fold_left (collect convertField) schema ([], []))))
      by (apply collect_keys; by right).
    destruct (obj_get k (fst (fold_left (collect convertField) schema ([], []))))
      as [v|] eqn:Hv.
    + apply (all_keys_obj_get "properties" (JObject
        (fst (fold_left (collect convertField) schema ([], []))))).
      * apply (generateJsonSchema_properties schema).
      * right. apply (all_keys_obj_get k v); [done | by left].
    + exfalso. clear Hk Hproto. revert Hin Hv.
      generalize (fst (fold_left (collect convertField) schema ([], []))).
      intros o. induction o as [|[k1 v1] o IH]; simpl.
      * by intros ?%elem_of_nil.
      * destruct (String.eqb k k1) eqn:E; [done|].
        apply String.eqb_neq in E. rewrite elem_of_cons. intros [?|?]; auto.
Qed.

Lemma generateJsonSchema_keys_witness :
  ("age" ∈ schema_keys \/ "age" ∈ schema_names Index.initial) /\
  "age" ∈ all_keys (generateJsonSchema Index.initial).
Proof.
  assert (H : "age" ∈ map name Index.initial)
    by (simpl; rewrite !elem_of_cons; auto).
  assert (H' : "age" <> "__proto__") by discriminate.
  split.
  - apply (proj1 (generateJsonSchema_keys Index.initial "age")).
    exact (proj2 (generateJsonSchema_keys Index.initial "age") H H').
  - exact (proj2 (generateJsonSchema_keys Index.initial "age") H H').
Defined.

Lemma delete_out_of_range_list {A} (l : list A) (index : nat) :
  length l <= index -> delete index l = l.
Proof.
  revert index. induction l as [|x l IH]; intros [|index] H; simpl in *;
    try done; try lia.
  f_equal. apply IH. lia.
Qed.

(** X13.  Deleting at an index at or beyond the end removes nothing:
    [deleteField] returns the root sequence and [deleteProperty] the
    field it was given. *)
Theorem delete_out_of_range (siblings : list SchemaField) (index : nat) :
  length siblings <= index ->
  Index.deleteField siblings index = siblings /\
  forall field,
    properties field = Some siblings ->
    FieldEditor.deleteProperty field index = field.
Proof.
  intros H. split.
  - unfold Index.deleteField. rewrite array_filter_delete.
    by apply delete_out_of_range_list.
  - intros field Hps. unfold FieldEditor.deleteProperty.
    rewrite Hps, array_filter_delete, delete_out_of_range_list by done.
    destruct field; simpl in *. by rewrite Hps.
Qed.

Lemma delete_out_of_range_witness :
  Index.deleteField Index.initial 2 = Index.initial /\
  forall field,
    properties field = Some Index.initial ->
    FieldEditor.deleteProperty field 2 = field.
Proof. apply (delete_out_of_range Index.initial 2). simpl. lia. Defined.

(** X14.  The keys of the schema compiled from a field are, in this
    order and each at most once, among [type], [description],
    [properties], [required], [items]; [type] is always there, with the
    type of the field as its value. *)
Theorem convertField_key_order (f : SchemaField) :
  keys_of (convertField f) `sublist_of` schema_keys /\
  head (keys_of (convertField f)) = Some "type" /\
  member "type" (convertField f) = Some (JString (type_string (type f))).
Proof.
  rewrite convertField_eq. cbv zeta. unfold schema_keys.
  destruct (truthy (description f)), (type f), (properties f) as [ps|],
    (items f) as [it|]; simpl;
    try destruct (0 <? length _)%nat; simpl;
    (split; [|done]);
    repeat first [apply sublist_nil | apply sublist_skip | apply sublist_cons].
Qed.

Lemma elem_of_map_name (l : list SchemaField) (k : string) :
  k ∈ map name l <-> exists j g, l !! j = Some g /\ name g = k.
Proof.
  induction l as [|x l IH]; simpl.
  - split; [by intros ?%elem_of_nil | by intros (j & g & ? & _)].
  - rewrite elem_of_cons, IH. split.
    + intros [->|(j & g & Hj & Hg)]; [by exists 0, x | by exists (S j), g].
    + intros ([|j] & g & Hj & Hg); simpl in Hj.
      * left. by injection Hj as ->.
      * right. by exists j, g.
Qed.

Lemma lookup_delete_other {A} (l : list A) (i : nat) (x : A) :
  (exists j, delete i l !! j = Some x) <-> exists j, j <> i /\ l !! j = Some x.
Proof.
  split.
  - intros (j & Hj). destruct (decide (j < i)) as [Hlt|Hge].
    + rewrite list_lookup_delete_lt in Hj by done. exists j. split; [lia | done].
    + rewrite list_lookup_delete_ge in Hj by lia. exists (S j). split; [lia | done].
  - intros (j & Hne & Hj). destruct (decide (j < i)) as [Hlt|Hge].
    + exists j. by rewrite list_lookup_delete_lt.
    + exists (j - 1). rewrite list_lookup_delete_ge by lia.
      by replace (S (j - 1)) with j by lia.
Qed.

(** X15.  The delete button of an existing root field removes the
    field, and its name, when it is not [__proto__], stays a key of the
    generated [properties] exactly when another root field has the same
    name. *)
Theorem deleteField_compiled
    (schema : list SchemaField) (index : nat) (f : SchemaField) :
  schema !! index = Some f ->
  name f <> "__proto__" ->
  exists props',
    Index.handle schema (InField index DeleteClick)
    = Some (Index.deleteField schema index) /\
    member "properties" (generateJsonSchema (Index.deleteField schema index))
    = Some (JObject props') /\
    (name f ∈ obj_keys props' <->
     exists j g, j <> index /\ schema !! j = Some g /\ name g = name f).
Proof.
  intros Hi Hproto. eexists. split; [simpl; by rewrite Hi|].
  split; [apply generateJsonSchema_properties|].
  rewrite collect_keys. simpl. rewrite elem_of_nil.
  unfold Index.deleteField. rewrite array_filter_delete, elem_of_map_name.
  split.
  - intros [[]|[(j & g & Hj & Hg) _]].
    destruct (proj1 (lookup_delete_other schema index g)) as (j' & Hne & Hj');
      [by exists j | by exists j', g].
  - intros (j & g & Hne & Hj & Hg). right. split; [|done].
    destruct (proj2 (lookup_delete_other schema index g)) as (j' & Hj');
      [by exists j | by exists j', g].
Qed.

Lemma deleteField_compiled_witness :
  exists props',
    Index.handle Index.initial (InField 0 DeleteClick)
    = Some (Index.deleteField Index.initial 0) /\
    member "properties" (generateJsonSchema (Index.deleteField Index.initial 0))
    = Some (JObject props') /\
    ("name" ∈ obj_keys props' <->
     exists j g, j <> 0 /\ Index.initial !! j = Some g /\ name g = "name").
Proof.
  apply (deleteField_compiled Index.initial 0 _ eq_refl). discriminate.
Defined.

(** X16.  Renaming a root field to a name that is not [__proto__] and
    that no later root field has is handled, and the generated
    [properties] then binds the new name to the schema the field compiled
    to before: a rename moves the schema of the field to another key and
    does not change it. *)
Theorem rename_compiled
    (schema : list SchemaField) (index : nat) (f : SchemaField) (value : string) :
  schema !! index = Some f ->
  value <> "__proto__" ->
  (forall j g, index < j -> schema !! j = Some g -> name g <> value) ->
  exists schema' props',
    Index.handle schema (InField index (NameChange value)) = Some schema' /\
    member "properties" (generateJsonSchema schema') = Some (JObject props') /\
    obj_get value props' = Some (convertField f).
Proof.
  intros Hi Hproto Hlater. simpl. rewrite Hi. simpl.
  unfold Index.updateField. rewrite (array_set_lookup _ _ _ _ Hi).
  do 2 eexists. split; [done|]. split; [apply generateJsonSchema_properties|].
  set (f' := FieldEditor.updateField f _).
  assert (Hn : name f' = value) by (by destruct f).
  assert (Hc : convertField f' = convertField f) by (by destruct f).
  rewrite insert_take_drop by (by eapply lookup_lt_Some).
  rewrite <- Hn, <- Hc. apply collect_last; [by rewrite Hn|].
  apply Forall_forall. intros g Hg. rewrite Hn.
  apply list_elem_of_lookup in Hg as (j & Hj).
  rewrite lookup_drop in Hj. by apply (Hlater (S index + j)); [lia|].
Qed.

Lemma rename_compiled_witness :
  exists schema' props',
    Index.handle Index.initial (InField 0 (NameChange "fullName")) = Some schema' /\
    member "properties" (generateJsonSchema schema') = Some (JObject props') /\
    obj_get "fullName" props'
    = Some (JObject [ ("type", JString "string");
                      ("description", JString "The name of the user") ]).
Proof.
  apply (rename_compiled Index.initial 0 _ "fullName" eq_refl).
  - discriminate.
  - intros [|[|[|j]]] g Hlt Hj; simpl in Hj; try lia; try done.
    by injection Hj as <-.
Defined.

(** X17.  Whenever an event inside a nested editor makes a field call
    one of its callbacks, the field is one for which the expand toggle is
    rendered: the toggle is there for every field that shows editors
    below it. *)
Theorem nested_editor_has_toggle (f : SchemaField) (e : Event) (c : Callback) :
  (exists index, FieldEditor.handle f (InProperty index e) = Some c) \/
  FieldEditor.handle f (InItems e) = Some c ->
  c <> Idle ->
  canHaveChildren f = true.
Proof.
  intros H Hc. unfold canHaveChildren.
  destruct H as [[index H]|H]; simpl in H;
    destruct (type f); try done; by injection H as <-.
Qed.

Lemma nested_editor_has_toggle_witness :
  canHaveChildren object_with_required = true.
Proof.
  eapply (nested_editor_has_toggle object_with_required RequiredClick).
  - left. exists 0. reflexivity.
  - discriminate.
Defined.
